(** * go_libs/websocket: a shallow embedding of websocket.go

    The Go package implements the server side of RFC 6455 on a hijacked
    HTTP/1.1 connection.  This development embeds the handshake, the frame
    codec, the teardown path and the admission counter as Rocq functions
    over explicit state, and states the properties of the specification
    over them.

    Conventions.
    - A Go [byte] is a [Z] in [0, 256); [int32]/[int64] arithmetic is
      written with its wrap-around ([wrap32], [wrap64]).
    - [*bufio.ReadWriter] and [net.Conn] are library objects.  The read
      side is a list of chunks: one chunk is what a single [Read] can
      return at most (bufio documents that [Read] may return fewer bytes
      than asked for).  The write side is a buffer that [Flush] hands to
      the connection when the transport is up.
    - Application handlers are opaque closures; calling one is recorded
      as an event of the trace. *)

From Stdlib Require Import ZArith List String Ascii Bool Lia.
From stdpp Require Import base option list gmap.
Import ListNotations.

Local Open Scope Z_scope.

(** ** Machine integers *)

(** A Go [byte], held in a [Z]. *)
Abbreviation byte := Z (only parsing).

Definition is_byte (b : Z) : Prop := 0 <= b < 256.

Definition wrap8 (z : Z) : Z := z mod 256.

(** Two's complement wrap-around of a [w]-bit signed integer. *)
Definition wrap_signed (w : Z) (z : Z) : Z :=
  (z + 2 ^ (w - 1)) mod 2 ^ w - 2 ^ (w - 1).

Definition wrap32 (z : Z) : Z := wrap_signed 32 z.
Definition wrap64 (z : Z) : Z := wrap_signed 64 z.

Definition bytes_of_string (s : string) : list byte :=
  List.map (fun c => Z.of_N (N_of_ascii c)) (list_ascii_of_string s).

(** ** crypto/sha1 (FIPS 180-4) on 32-bit words *)

Module Sha1.

Definition mask32 (z : Z) : Z := Z.land z 4294967295.

Definition add32 (x y : Z) : Z := mask32 (x + y).

Definition rotl (n : Z) (x : Z) : Z :=
  mask32 (Z.lor (Z.shiftl x n) (Z.shiftr x (32 - n))).

Definition not32 (x : Z) : Z := Z.lxor x 4294967295.

Definition f_round (t : nat) (b c d : Z) : Z :=
  if (t <? 20)%nat then Z.lor (Z.land b c) (Z.land (not32 b) d)
  else if (t <? 40)%nat then Z.lxor (Z.lxor b c) d
  else if (t <? 60)%nat then
    Z.lor (Z.lor (Z.land b c) (Z.land b d)) (Z.land c d)
  else Z.lxor (Z.lxor b c) d.

Definition k_round (t : nat) : Z :=
  if (t <? 20)%nat then 1518500249
  else if (t <? 40)%nat then 1859775393
  else if (t <? 60)%nat then 2400959708
  else 3395469782.

(** Padding: a 1 bit, zeros up to 56 mod 64, the bit length on 8 bytes. *)
Definition be_bytes (n : nat) (z : Z) : list byte :=
  List.map (fun i => Z.land (Z.shiftr z (8 * Z.of_nat i)) 255) (rev (seq 0 n)).

Definition pad (msg : list byte) : list byte :=
  let l := Z.of_nat (length msg) in
  let zeros := Z.to_nat ((55 - l) mod 64) in
  msg ++ [128] ++ repeat 0 zeros ++ be_bytes 8 (8 * l).

Definition be32 (b0 b1 b2 b3 : Z) : Z :=
  Z.lor (Z.lor (Z.lor (Z.shiftl b0 24) (Z.shiftl b1 16)) (Z.shiftl b2 8)) b3.

Fixpoint words (n : nat) (bs : list byte) : list Z :=
  match n, bs with
  | S n', b0 :: b1 :: b2 :: b3 :: rest => be32 b0 b1 b2 b3 :: words n' rest
  | _, _ => []
  end.

(** The message schedule through a sliding window of sixteen words. *)
Definition next_w (win : list Z) : Z :=
  rotl 1 (Z.lxor (Z.lxor (Z.lxor (nth 13 win 0) (nth 8 win 0)) (nth 2 win 0))
                 (nth 0 win 0)).

Record regs := { ra : Z; rb : Z; rc : Z; rd : Z; re : Z }.

Definition round (t : nat) (wt : Z) (r : regs) : regs :=
  let tmp := add32 (add32 (add32 (add32 (rotl 5 (ra r))
                                        (f_round t (rb r) (rc r) (rd r)))
                                 (re r)) wt) (k_round t) in
  {| ra := tmp; rb := ra r; rc := rotl 30 (rb r); rd := rc r; re := rd r |}.

Fixpoint rounds (n : nat) (t : nat) (win : list Z) (r : regs) : regs :=
  match n with
  | O => r
  | S n' =>
      let wt := nth 0 win 0 in
      rounds n' (S t) (tl win ++ [next_w win]) (round t wt r)
  end.

Definition block (h : regs) (blk : list byte) : regs :=
  let r := rounds 80 0 (words 16 blk) h in
  {| ra := add32 (ra h) (ra r); rb := add32 (rb h) (rb r);
     rc := add32 (rc h) (rc r); rd := add32 (rd h) (rd r);
     re := add32 (re h) (re r) |}.

Fixpoint blocks (n : nat) (h : regs) (bs : list byte) : regs :=
  match n with
  | O => h
  | S n' => blocks n' (block h (firstn 64 bs)) (skipn 64 bs)
  end.

Definition init : regs :=
  {| ra := 1732584193; rb := 4023233417; rc := 2562383102;
     rd := 271733878; re := 3285377520 |}.

(** [h.Write(msg); h.Sum(nil)]: the 20-byte digest. *)
Definition sum (msg : list byte) : list byte :=
  let p := pad msg in
  let h := blocks (length p / 64) init p in
  be_bytes 4 (ra h) ++ be_bytes 4 (rb h) ++ be_bytes 4 (rc h)
    ++ be_bytes 4 (rd h) ++ be_bytes 4 (re h).

End Sha1.

(** ** encoding/base64, StdEncoding (RFC 4648 alphabet, '=' padding) *)

Module Base64.

Definition alphabet : string :=
  "ABCDEFGHIJKLMNOPQRSTUVWXYZabcdefghijklmnopqrstuvwxyz0123456789+/".

Definition enc (v : Z) : ascii :=
  match String.get (Z.to_nat v) alphabet with
  | Some c => c
  | None => "="%char
  end.

Fixpoint encode (fuel : nat) (bs : list byte) : string :=
  match fuel with
  | O => EmptyString
  | S fuel' =>
      match bs with
      | [] => EmptyString
      | [a] =>
          String (enc (Z.shiftr a 2))
            (String (enc (Z.land (Z.shiftl a 4) 63)) "==")
      | [a; b] =>
          String (enc (Z.shiftr a 2))
            (String (enc (Z.land (Z.lor (Z.shiftl a 4) (Z.shiftr b 4)) 63))
               (String (enc (Z.land (Z.shiftl b 2) 63)) "="))
      | a :: b :: c :: rest =>
          String (enc (Z.shiftr a 2))
            (String (enc (Z.land (Z.lor (Z.shiftl a 4) (Z.shiftr b 4)) 63))
               (String (enc (Z.land (Z.lor (Z.shiftl b 2) (Z.shiftr c 6)) 63))
                  (String (enc (Z.land c 63)) (encode fuel' rest))))
      end
  end.

Definition EncodeToString (bs : list byte) : string :=
  encode (S (length bs)) bs.

End Base64.

(** ** Errors, results and the state monad

    A Go function of the package returns an [error] (or nil), or panics.
    [Ok] is the nil error.  [OutOfFuel] is the outcome of a loop of the
    model that was given too few iterations; it is no outcome of the Go
    code, and the loops below are shown never to produce it. *)

Inductive error : Type :=
| ErrTransport                        (* an error of the stream itself *)
| ErrClosed                           (* "WebSocket is closed" *)
| ErrFragmented                       (* "Fragmented frames are not supported" *)
| ErrRSV                              (* "Unsupported RSV bits set" *)
| ErrOpcode (opcode : byte)           (* "Unsupported opcode %d" *)
| ErrExtendedLength                   (* "Could not read extended payload length" *)
| ErrTooLarge (len max : Z)           (* "Payload length %d exceeds maximum frame size %d" *)
| ErrMaskKey                          (* "Could not read masking key" *)
| ErrInvalidOpcode (opcode : byte)    (* "Invalid opcode: %d" *)
| ErrMethod (m : string)              (* "Invalid HTTP method: %s" *)
| ErrHTTPVersion                      (* "HTTP version must be at least 1.1" *)
| ErrUpgradeHeader (h : string)       (* "Invalid Upgrade header: %s" *)
| ErrConnectionHeader (h : string)    (* "Invalid Connection header: %s" *)
| ErrSecFetchMode (h : string)        (* "Invalid Sec-Fetch-Mode header: %s" *)
| ErrVersion (h : string)             (* "Unsupported WebSocket version: %s" *)
| ErrProtocol (h : string)            (* "Unsupported WebSocket protocol: %s" *)
| ErrOrigin                           (* "Missing Origin header" *)
| ErrKey                              (* "Missing Sec-WebSocket-Key header" *)
| ErrMaxConnections                   (* "Maximum number of WebSocket connections reached" *)
| ErrHijack.                          (* the error of Hijack() *)

(** The errors the specification calls ProtocolError: the frame is
    malformed (FIN, RSV, opcode, size). *)
Definition is_protocol_error (e : error) : bool :=
  match e with
  | ErrFragmented | ErrRSV | ErrOpcode _ | ErrTooLarge _ _ => true
  | _ => false
  end.

Inductive result (A : Type) : Type :=
| Ok (a : A)
| Err (e : error)
| Panic
| OutOfFuel.

Arguments Ok {A} a.
Arguments Err {A} e.
Arguments Panic {A}.
Arguments OutOfFuel {A}.

Definition M (S A : Type) : Type := S -> result A * S.

Definition ret {S A} (a : A) : M S A := fun s => (Ok a, s).

Definition bind {S A B} (m : M S A) (k : A -> M S B) : M S B :=
  fun s =>
    match m s with
    | (Ok a, s') => k a s'
    | (Err e, s') => (Err e, s')
    | (Panic, s') => (Panic, s')
    | (OutOfFuel, s') => (OutOfFuel, s')
    end.

Definition fail {S A} (e : error) : M S A := fun s => (Err e, s).

Definition panic {S A} : M S A := fun s => (Panic, s).

Definition out_of_fuel {S A} : M S A := fun s => (OutOfFuel, s).

(** A call whose error value the caller drops. *)
Definition ignore_error {S} (m : M S unit) : M S unit :=
  fun s =>
    match m s with
    | (Err _, s') => (Ok tt, s')
    | r => r
    end.

Definition gets {S A} (f : S -> A) : M S A := fun s => (Ok (f s), s).

Definition modify {S} (f : S -> S) : M S unit := fun s => (Ok tt, f s).

Notation "'do' x <- m ; k" := (bind m (fun x => k))
  (at level 10, x name, m at level 100, k at level 200).
Notation "'run' m ; k" := (bind m (fun _ => k))
  (at level 10, m at level 100, k at level 200).

(** ** The connection and the package-level variables *)

(** [net.Conn]: the chunks the peer has sent and bufio has not read yet,
    the bytes written to the peer, whether writes succeed, and whether
    [Close] was called. *)
Record Conn : Type := {
  incoming : list (list byte);
  sent : list byte;
  up : bool;
  closed : bool
}.

(** [*bufio.ReadWriter]: the read buffer and the write buffer.  The fixed
    size of the buffers is not modelled: a chunk is buffered whole, and
    written bytes stay in [wbuf] until [Flush]. *)
Record ReadWriter : Type := {
  rbuf : list byte;
  wbuf : list byte
}.

Record WebSocket : Type := {
  ID : Z;
  rw : ReadWriter;
  conn : Conn;
  protocol : string;
  extensions : string;
  client_key : string;
  is_open : bool;
  ReceiveBinaryHandler : bool;        (* true: not nil *)
  ReceiveTextHandler : bool;
  ClosedHandler : bool
}.

(** What the package does to the outside, in order. *)
Inductive Event : Type :=
| EvStore (id : Z)                            (* global_websockets.Store *)
| EvDelete (id : Z)                           (* global_websockets.Delete *)
| EvCountCAS (old new : Z)                    (* a successful CompareAndSwap *)
| EvCountAdd (delta : Z)                      (* global_websocket_count.Add *)
| EvConnClose (id : Z)                        (* ws.conn.Close() *)
| EvReceiveText (id : Z) (message : list byte)
| EvReceiveBinary (id : Z) (message : list byte)
| EvClosed (id : Z).                          (* ws.ClosedHandler(ws) *)

(** The package variables.  The registry holds pointers; the model keeps
    the struct as it was when stored (no function of the package reads a
    stored value back). *)
Record Globals : Type := {
  global_id_gen : Z;
  global_websocket_count : Z;
  global_websockets : gmap Z WebSocket;
  global_frame_max_size : Z;
  global_max_websockets : Z
}.

Definition initial_globals : Globals :=
  {| global_id_gen := 0;
     global_websocket_count := 0;
     global_websockets := ∅;
     global_frame_max_size := 1024 * 1024;
     global_max_websockets := 1000 |}.

(** The package variables and the trace: what every goroutine shares. *)
Record World : Type := {
  g : Globals;
  log : list Event
}.

(** The state a method of one connection works on. *)
Record State : Type := {
  ws : WebSocket;
  world : World
}.

Definition ERROR_CODE_NORMAL_CLOSURE : Z := 1000.

Definition OPCODE_CONTINUATION : byte := 0.
Definition OPCODE_TEXT : byte := 1.
Definition OPCODE_BINARY : byte := 2.
Definition OPCODE_CLOSE : byte := 8.
Definition OPCODE_PING : byte := 9.
Definition OPCODE_PONG : byte := 10.

(** Field updates. *)
Definition set_rw (f : ReadWriter -> ReadWriter) (w : WebSocket) : WebSocket :=
  {| ID := ID w; rw := f (rw w); conn := conn w; protocol := protocol w;
     extensions := extensions w; client_key := client_key w;
     is_open := is_open w; ReceiveBinaryHandler := ReceiveBinaryHandler w;
     ReceiveTextHandler := ReceiveTextHandler w;
     ClosedHandler := ClosedHandler w |}.

Definition set_conn (f : Conn -> Conn) (w : WebSocket) : WebSocket :=
  {| ID := ID w; rw := rw w; conn := f (conn w); protocol := protocol w;
     extensions := extensions w; client_key := client_key w;
     is_open := is_open w; ReceiveBinaryHandler := ReceiveBinaryHandler w;
     ReceiveTextHandler := ReceiveTextHandler w;
     ClosedHandler := ClosedHandler w |}.

Definition set_is_open (b : bool) (w : WebSocket) : WebSocket :=
  {| ID := ID w; rw := rw w; conn := conn w; protocol := protocol w;
     extensions := extensions w; client_key := client_key w;
     is_open := b; ReceiveBinaryHandler := ReceiveBinaryHandler w;
     ReceiveTextHandler := ReceiveTextHandler w;
     ClosedHandler := ClosedHandler w |}.

Definition set_count (c : Z) (gl : Globals) : Globals :=
  {| global_id_gen := global_id_gen gl;
     global_websocket_count := c;
     global_websockets := global_websockets gl;
     global_frame_max_size := global_frame_max_size gl;
     global_max_websockets := global_max_websockets gl |}.

Definition set_id_gen (i : Z) (gl : Globals) : Globals :=
  {| global_id_gen := i;
     global_websocket_count := global_websocket_count gl;
     global_websockets := global_websockets gl;
     global_frame_max_size := global_frame_max_size gl;
     global_max_websockets := global_max_websockets gl |}.

Definition set_websockets (f : gmap Z WebSocket -> gmap Z WebSocket)
    (gl : Globals) : Globals :=
  {| global_id_gen := global_id_gen gl;
     global_websocket_count := global_websocket_count gl;
     global_websockets := f (global_websockets gl);
     global_frame_max_size := global_frame_max_size gl;
     global_max_websockets := global_max_websockets gl |}.

Definition on_ws (f : WebSocket -> WebSocket) (s : State) : State :=
  {| ws := f (ws s); world := world s |}.

Definition on_world (f : World -> World) (s : State) : State :=
  {| ws := ws s; world := f (world s) |}.

Definition map_g (f : Globals -> Globals) (wd : World) : World :=
  {| g := f (g wd); log := log wd |}.

Definition record (e : Event) (wd : World) : World :=
  {| g := g wd; log := log wd ++ [e] |}.

Definition on_g (f : Globals -> Globals) (s : State) : State :=
  on_world (map_g f) s.

Definition emit (e : Event) : M State unit :=
  modify (on_world (record e)).

(** ** bufio over the connection *)

(** The next chunk of the connection.  A [net.Conn] never delivers an
    empty read without an error; an empty chunk is skipped. *)
Fixpoint next_chunk (inc : list (list byte))
    : option (list byte * list (list byte)) :=
  match inc with
  | [] => None
  | [] :: rest => next_chunk rest
  | c :: rest => Some (c, rest)
  end.

(** The bytes the next read draws from: the read buffer, refilled by one
    read of the connection when it is empty.  Reading a closed or
    exhausted connection is an error. *)
Definition fill (w : WebSocket) : option (list byte * list (list byte)) :=
  match rbuf (rw w) with
  | [] => if closed (conn w) then None else next_chunk (incoming (conn w))
  | _ :: _ => Some (rbuf (rw w), incoming (conn w))
  end.

Definition set_input (buf : list byte) (inc : list (list byte))
    (w : WebSocket) : WebSocket :=
  set_conn (fun c => {| incoming := inc; sent := sent c; up := up c;
                        closed := closed c |})
    (set_rw (fun r => {| rbuf := buf; wbuf := wbuf r |}) w).

(** [ws.rw.Read(p)] with [len(p) = k > 0]: at most [k] bytes, from at
    most one read of the connection; the bytes read are returned. *)
Definition Read (k : nat) : M State (list byte) :=
  fun s =>
    match fill (ws s) with
    | None => (Err ErrTransport, s)
    | Some (buf, inc) =>
        (Ok (take k buf), on_ws (set_input (drop k buf) inc) s)
    end.

(** [ws.rw.ReadByte()]. *)
Definition ReadByte : M State byte :=
  fun s =>
    match fill (ws s) with
    | Some (b :: buf, inc) => (Ok b, on_ws (set_input buf inc) s)
    | _ => (Err ErrTransport, s)
    end.

(** [ws.rw.Write(p)]: the bytes go to the write buffer. *)
Definition Write (p : list byte) : M State unit :=
  modify (on_ws (set_rw (fun r => {| rbuf := rbuf r; wbuf := wbuf r ++ p |}))).

(** [ws.rw.Flush()]: the buffer goes to the peer, or the write fails. *)
Definition Flush : M State unit :=
  fun s =>
    let c := conn (ws s) in
    if up c && negb (closed c) then
      (Ok tt,
       on_ws (fun w =>
                set_conn (fun c => {| incoming := incoming c;
                                      sent := sent c ++ wbuf (rw w);
                                      up := up c; closed := closed c |})
                  (set_rw (fun r => {| rbuf := rbuf r; wbuf := [] |}) w)) s)
    else (Err ErrTransport, s).

(** [ws.conn.Close()]. *)
Definition ConnClose : M State unit :=
  do id <- gets (fun s => ID (ws s));
  run emit (EvConnClose id);
  modify (on_ws (set_conn (fun c => {| incoming := incoming c; sent := sent c;
                                       up := up c; closed := true |}))).

(** ** The frame codec *)

(** [maskData]: [data[i] ^= mask_key[i%4]] for every index of [data].
    [None] is the index-out-of-range panic of a key shorter than needed. *)
Fixpoint maskData_from (i : nat) (mask_key data : list byte)
    : option (list byte) :=
  match data with
  | [] => Some []
  | d :: rest =>
      match mask_key !! (i mod 4)%nat with
      | None => None
      | Some k =>
          match maskData_from (S i) mask_key rest with
          | None => None
          | Some rest' => Some (Z.lxor d k :: rest')
          end
      end
  end.

Definition maskData (mask_key data : list byte) : option (list byte) :=
  maskData_from 0 mask_key data.

Definition makeStatusCodeBytes (code : Z) : list byte :=
  [Z.land (Z.shiftr code 8) 255; Z.land code 255].

(** The header [sendFrame] builds for a payload of [payload_len] bytes. *)
Definition frame_header (opcode : byte) (mask_key : list byte)
    (payload_len : Z) : list byte :=
  let fin := 128 in
  let b1 := Z.lor fin opcode in
  let masked := if (length mask_key =? 4)%nat then 128 else 0 in
  let b2 :=
    if payload_len <=? 125 then Z.lor masked (wrap8 payload_len)
    else if payload_len <=? 65535 then Z.lor masked 126
    else Z.lor masked 127 in
  let ext :=
    if Z.land b2 127 =? 126 then
      [Z.land (Z.shiftr payload_len 8) 255; Z.land payload_len 255]
    else if Z.land b2 127 =? 127 then
      [Z.land (Z.shiftr payload_len 56) 255;
       Z.land (Z.shiftr payload_len 48) 255;
       Z.land (Z.shiftr payload_len 40) 255;
       Z.land (Z.shiftr payload_len 32) 255;
       Z.land (Z.shiftr payload_len 24) 255;
       Z.land (Z.shiftr payload_len 16) 255;
       Z.land (Z.shiftr payload_len 8) 255;
       Z.land payload_len 255]
    else [] in
  let key := if (length mask_key =? 4)%nat then mask_key else [] in
  [b1; b2] ++ ext ++ key.

(** [sendFrame(ws, opcode, mask_key, payload)].  A nil key is [[]].  With
    a four-byte key the payload is masked in place before it is written
    (every call of the package passes nil). *)
Definition sendFrame (opcode : byte) (mask_key payload : list byte)
    : M State unit :=
  let payload_len := Z.of_nat (length payload) in
  if 15 <? opcode then fail (ErrInvalidOpcode opcode)
  else
    do payload' <-
      (if (length mask_key =? 4)%nat then
         match maskData mask_key payload with
         | Some p => ret p
         | None => panic
         end
       else ret payload);
    run Write (frame_header opcode mask_key payload_len);
    run Write payload';
    Flush.

Definition SendBinary (message : list byte) : M State unit :=
  sendFrame OPCODE_BINARY [] message.

Definition SendText (message : string) : M State unit :=
  sendFrame OPCODE_TEXT [] (bytes_of_string message).

(** [closeWebSocket(ws, data)]. *)
Definition closeWebSocket (data : list byte) : M State unit :=
  do open <- gets (fun s => is_open (ws s));
  if open then
    do id <- gets (fun s => ID (ws s));
    run modify (on_ws (set_is_open false));
    run modify (on_g (set_websockets (delete id)));
    run emit (EvDelete id);
    run ignore_error (sendFrame OPCODE_CLOSE [] data);
    run ConnClose;
    run modify (on_g (fun gl =>
                        set_count (wrap32 (global_websocket_count gl + -1)) gl));
    run emit (EvCountAdd (-1));
    do handler <- gets (fun s => ClosedHandler (ws s));
    if handler then emit (EvClosed id) else ret tt
  else ret tt.

(** The payload loop of [readFrame]:
    [for data_len < payload_len { n, err := ws.rw.Read(data[data_len:]) ... }].
    A read with room for [need > 0] bytes returns at least one byte, so
    [need] iterations are enough. *)
Fixpoint read_full (fuel need : nat) : M State (list byte) :=
  match need, fuel with
  | O, _ => ret []
  | S _, O => out_of_fuel
  | S _, S fuel' =>
      do bs <- Read need;
      do rest <- read_full fuel' (need - length bs);
      ret (bs ++ rest)
  end.

(** The opcode switch that ends [readFrame]; it returns nil whatever
    the opcode. *)
Definition dispatch (opcode : byte) (data : list byte) : M State unit :=
  let is_text := opcode =? OPCODE_TEXT in
  let is_binary := opcode =? OPCODE_BINARY in
  let is_close := opcode =? OPCODE_CLOSE in
  let is_ping := opcode =? OPCODE_PING in
  let is_pong := opcode =? OPCODE_PONG in
  if is_close then closeWebSocket data
  else if is_ping then ignore_error (sendFrame OPCODE_PONG [] data)
  else if is_pong then ret tt
  else if is_text then
    do handler <- gets (fun s => ReceiveTextHandler (ws s));
    if handler then
      do id <- gets (fun s => ID (ws s));
      emit (EvReceiveText id data)
    else ret tt
  else if is_binary then
    do handler <- gets (fun s => ReceiveBinaryHandler (ws s));
    if handler then
      do id <- gets (fun s => ID (ws s));
      emit (EvReceiveBinary id data)
    else ret tt
  else ret tt.

Definition byte_at (i : nat) (buffer : list byte) : Z := nth i buffer 0.

(** [int64(buffer[i]) << k]. *)
Definition shl64 (b : Z) (k : Z) : Z := wrap64 (Z.shiftl b k).

(** The 16-bit and the 64-bit extended payload length, as [readFrame]
    assembles them in an [int64]. *)
Definition length16 (buffer : list byte) : Z :=
  Z.lor (shl64 (byte_at 0 buffer) 8) (byte_at 1 buffer).

Definition length64 (buffer : list byte) : Z :=
  Z.lor (Z.lor (Z.lor (Z.lor (Z.lor (Z.lor (Z.lor
    (shl64 (byte_at 0 buffer) 56)
    (shl64 (byte_at 1 buffer) 48))
    (shl64 (byte_at 2 buffer) 40))
    (shl64 (byte_at 3 buffer) 32))
    (shl64 (byte_at 4 buffer) 24))
    (shl64 (byte_at 5 buffer) 16))
    (shl64 (byte_at 6 buffer) 8))
    (byte_at 7 buffer).

(** [readFrame(ws)]. *)
Definition readFrame : M State unit :=
  do b1 <- ReadByte;
  do open <- gets (fun s => is_open (ws s));
  if negb open then fail ErrClosed else
  let fin := Z.land b1 128 =? 128 in
  if negb fin then fail ErrFragmented else
  let rsv1 := Z.land b1 64 =? 64 in
  let rsv2 := Z.land b1 32 =? 32 in
  let rsv3 := Z.land b1 16 =? 16 in
  if rsv1 || rsv2 || rsv3 then fail ErrRSV else
  let opcode := Z.land b1 15 in
  let is_continuation := opcode =? OPCODE_CONTINUATION in
  let is_text := opcode =? OPCODE_TEXT in
  let is_binary := opcode =? OPCODE_BINARY in
  let is_close := opcode =? OPCODE_CLOSE in
  let is_ping := opcode =? OPCODE_PING in
  let is_pong := opcode =? OPCODE_PONG in
  if negb (is_continuation || is_text || is_binary || is_close || is_ping
           || is_pong)
  then fail (ErrOpcode opcode) else
  do b2 <- ReadByte;
  let is_masked := Z.land b2 128 =? 128 in
  let base_len := Z.land b2 127 in
  do payload_len <-
    (if base_len =? 126 then
       do buffer <- Read 2;
       if negb (length buffer =? 2)%nat then fail ErrExtendedLength
       else ret (length16 buffer)
     else if base_len =? 127 then
       do buffer <- Read 8;
       if negb (length buffer =? 8)%nat then fail ErrExtendedLength
       else ret (length64 buffer)
     else ret base_len);
  do max <- gets (fun s => global_frame_max_size (g (world s)));
  if max <? payload_len then fail (ErrTooLarge payload_len max) else
  do mask_key <-
    (if is_masked then
       do key <- Read 4;
       if negb (length key =? 4)%nat then fail ErrMaskKey else ret key
     else ret [0; 0; 0; 0]);
  (* data := make([]byte, payload_len) panics on a negative length *)
  if payload_len <? 0 then panic else
  do data <- read_full (Z.to_nat payload_len) (Z.to_nat payload_len);
  do data <-
    (if is_masked then
       match maskData mask_key data with
       | Some d => ret d
       | None => panic
       end
     else ret data);
  dispatch opcode data.

(** [readLoop(ws)]: frames are read until one fails; then the connection
    is closed with the normal-closure code.  A panic is not recovered. *)
Fixpoint readLoop (fuel : nat) : M State unit :=
  match fuel with
  | O => out_of_fuel
  | S fuel' =>
      fun s =>
        match readFrame s with
        | (Ok _, s') => readLoop fuel' s'
        | (Err _, s') =>
            closeWebSocket (makeStatusCodeBytes ERROR_CODE_NORMAL_CLOSURE) s'
        | (Panic, s') => (Panic, s')
        | (OutOfFuel, s') => (OutOfFuel, s')
        end
  end.

(** ** The admission counter *)

(** [incrementGlobalWebsocketCount] shares the counter with the other
    goroutines, so it is embedded as the atomic steps of its loop: the
    [Load] with the comparison that follows it, and the
    [CompareAndSwap]. *)
Inductive IncPc : Type :=
| AtLoad                      (* before count := Load() *)
| AtCAS (count : Z)           (* count < max was read; before the CAS *)
| Returned (b : bool).

Definition inc_step (max : Z) (pc : IncPc) (shared : Z) : IncPc * Z :=
  match pc with
  | AtLoad =>
      let count := shared in
      if max <=? count then (Returned false, shared) else (AtCAS count, shared)
  | AtCAS count =>
      if shared =? count then (Returned true, wrap32 (count + 1))
      else (AtLoad, shared)
  | Returned b => (Returned b, shared)
  end.

(** The loop run by one goroutine while no other touches the counter. *)
Fixpoint inc_run (fuel : nat) (max : Z) (pc : IncPc) (shared : Z)
    : option (bool * Z) :=
  match pc with
  | Returned b => Some (b, shared)
  | _ =>
      match fuel with
      | O => None
      | S fuel' =>
          let '(pc', shared') := inc_step max pc shared in
          inc_run fuel' max pc' shared'
      end
  end.

Definition incrementGlobalWebsocketCount : M World bool :=
  fun wd =>
    let count := global_websocket_count (g wd) in
    match inc_run 2 (global_max_websockets (g wd)) AtLoad count with
    | Some (true, count') =>
        (Ok true, record (EvCountCAS count count') (map_g (set_count count') wd))
    | Some (false, _) => (Ok false, wd)
    | None => (OutOfFuel, wd)
    end.

(** ** Goroutines around the admission counter

    Upgrades run concurrently.  A goroutine is outside
    [incrementGlobalWebsocketCount] ([Idle]) or at one of its atomic
    steps; one that got [true] holds a slot until its connection is
    closed ([closeWebSocket] adds -1), or for ever when [Hijack] failed. *)
Inductive Goroutine : Type :=
| Idle
| Running (pc : IncPc).

Record Pool : Type := {
  counter : Z;                      (* global_websocket_count *)
  goroutines : list Goroutine
}.

Definition holds_slot (t : Goroutine) : Z :=
  match t with
  | Running (Returned true) => 1
  | _ => 0
  end.

(** The slots held: the connections admitted and not yet closed. *)
Fixpoint slots_held (ts : list Goroutine) : Z :=
  match ts with
  | [] => 0
  | t :: rest => holds_slot t + slots_held rest
  end.

Inductive pool_step (max : Z) : Pool -> Pool -> Prop :=
| step_call (p : Pool) (i : nat) :
    goroutines p !! i = Some Idle ->
    pool_step max p
      {| counter := counter p;
         goroutines := <[i := Running AtLoad]> (goroutines p) |}
| step_inc (p : Pool) (i : nat) (pc pc' : IncPc) (c' : Z) :
    goroutines p !! i = Some (Running pc) ->
    inc_step max pc (counter p) = (pc', c') ->
    pool_step max p
      {| counter := c';
         goroutines := <[i := Running pc']> (goroutines p) |}
| step_refused (p : Pool) (i : nat) :
    goroutines p !! i = Some (Running (Returned false)) ->
    pool_step max p
      {| counter := counter p;
         goroutines := <[i := Idle]> (goroutines p) |}
| step_close (p : Pool) (i : nat) :
    goroutines p !! i = Some (Running (Returned true)) ->
    pool_step max p
      {| counter := wrap32 (counter p + -1);
         goroutines := <[i := Idle]> (goroutines p) |}.

(** [n] goroutines, no connection yet. *)
Definition initial_pool (n : nat) : Pool :=
  {| counter := 0; goroutines := replicate n Idle |}.

(** What the steps keep true. *)
Definition pool_invariant (max : Z) (p : Pool) : Prop :=
  counter p = slots_held (goroutines p)
  /\ 0 <= counter p <= max
  /\ forall i c, goroutines p !! i = Some (Running (AtCAS c)) -> c < max.

(** ** The handshake *)

(** The request as [makeWebSocket] reads it.  [Header] is
    [r.Header.Get]: the single-value lookup of net/http, the empty string
    for an absent header. *)
Record Request : Type := {
  Method : string;
  ProtoMajor : Z;
  ProtoMinor : Z;
  Header : string -> string
}.

Definition ProtoAtLeast (r : Request) (major minor : Z) : bool :=
  (major <? ProtoMajor r)
  || ((ProtoMajor r =? major) && (minor <=? ProtoMinor r)).

(** What [w.(http.Hijacker).Hijack()] will do: hand over the connection
    with the bytes the server has already buffered from it, return an
    error, or not be there at all (the type assertion panics). *)
Inductive ResponseWriter : Type :=
| Hijackable (c : Conn) (buffered : list byte)
| HijackFails
| NotAHijacker.

(** [strings.Contains]. *)
Definition Contains (s substr : string) : bool :=
  match String.index 0 substr s with
  | Some _ => true
  | None => false
  end.

Definition validateProtocolHeader (value : string) : M World string :=
  if (0 <? String.length value)%nat then fail (ErrProtocol value)
  else ret EmptyString.

Definition validateExtensionsHeader (value : string) : M World string :=
  ret EmptyString.

Definition makeWebSocket (w : ResponseWriter) (r : Request)
    : M World WebSocket :=
  if negb (String.eqb (Method r) "GET") then fail (ErrMethod (Method r)) else
  if negb (ProtoAtLeast r 1 1) then fail ErrHTTPVersion else
  let header := Header r "Upgrade" in
  if negb (String.eqb header "websocket") then fail (ErrUpgradeHeader header) else
  let header := Header r "Connection" in
  if negb (String.eqb header "Upgrade") then fail (ErrConnectionHeader header) else
  let header := Header r "Sec-Fetch-Mode" in
  if negb (String.eqb header "websocket") then fail (ErrSecFetchMode header) else
  let header := Header r "Sec-WebSocket-Version" in
  if negb (Contains header "13") then fail (ErrVersion header) else
  do ws_protocol <- validateProtocolHeader (Header r "Sec-WebSocket-Protocol");
  do ws_extensions <- validateExtensionsHeader (Header r "Sec-WebSocket-Extensions");
  let origin := Header r "Origin" in
  if String.eqb origin EmptyString then fail ErrOrigin else
  let key := Header r "Sec-WebSocket-Key" in
  if String.eqb key EmptyString then fail ErrKey else
  do admitted <- incrementGlobalWebsocketCount;
  if negb admitted then fail ErrMaxConnections else
  match w with
  | NotAHijacker => panic
  | HijackFails => fail ErrHijack
  | Hijackable c buffered =>
      run modify (map_g (fun gl => set_id_gen (wrap64 (global_id_gen gl + 1)) gl));
      do id <- gets (fun wd => global_id_gen (g wd));
      let w :=
        {| ID := id; rw := {| rbuf := buffered; wbuf := [] |}; conn := c;
           protocol := ws_protocol;
           extensions := ws_extensions; client_key := key; is_open := true;
           ReceiveBinaryHandler := false; ReceiveTextHandler := false;
           ClosedHandler := false |} in
      run modify (map_g (set_websockets (insert id w)));
      run modify (record (EvStore id));
      ret w
  end.

Definition CRLF : string :=
  String (ascii_of_nat 13) (String (ascii_of_nat 10) EmptyString).

Definition GUID : string := "258EAFA5-E914-47DA-95CA-C5AB0DC85B11".

(** [base64.StdEncoding.EncodeToString(sha1(client_key + GUID))]. *)
Definition accept_key (client_key : string) : string :=
  let acceptKey := String.append client_key GUID in
  Base64.EncodeToString (Sha1.sum (bytes_of_string acceptKey)).

(** [fmt.Fprintf(ws.rw, format)] of a line already formatted; the result
    of the call is not looked at. *)
Definition Fprintf (line : string) : M State unit :=
  Write (bytes_of_string line).

Definition sendWebSocketHandshakeResponse : M State unit :=
  do key <- gets (fun s => client_key (ws s));
  let acceptKeyHash := accept_key key in
  run Fprintf (String.append "HTTP/1.1 101 Switching Protocols" CRLF);
  run Fprintf (String.append "Upgrade: websocket" CRLF);
  run Fprintf (String.append "Connection: Upgrade" CRLF);
  run Fprintf (String.append "Sec-WebSocket-Accept: "
                 (String.append acceptKeyHash CRLF));
  do proto <- gets (fun s => protocol (ws s));
  run (if negb (String.eqb proto EmptyString) then
         Fprintf (String.append "Sec-WebSocket-Protocol: "
                    (String.append proto CRLF))
       else ret tt);
  do ext <- gets (fun s => extensions (ws s));
  run (if negb (String.eqb ext EmptyString) then
         Fprintf (String.append "Sec-WebSocket-Extensions: "
                    (String.append ext CRLF))
       else ret tt);
  run Fprintf CRLF;
  Flush.

(** [Upgrade(w, r)].  [go readLoop(ws)] starts the goroutine that runs
    [readLoop] on the returned connection; it runs after the return. *)
Definition Upgrade (w : ResponseWriter) (r : Request) : M World WebSocket :=
  do made <- makeWebSocket w r;
  fun wd =>
    match sendWebSocketHandshakeResponse {| ws := made; world := wd |} with
    | (Ok _, s) => (Ok (ws s), world s)
    | (Err e, s) => (Err e, world s)
    | (Panic, s) => (Panic, world s)
    | (OutOfFuel, s) => (OutOfFuel, world s)
    end.

(** The response of a connection that negotiated neither a protocol nor
    an extension. *)
Definition handshake_response (key : string) : string :=
  String.append "HTTP/1.1 101 Switching Protocols"
    (String.append CRLF
    (String.append "Upgrade: websocket"
    (String.append CRLF
    (String.append "Connection: Upgrade"
    (String.append CRLF
    (String.append "Sec-WebSocket-Accept: "
    (String.append
       (Base64.EncodeToString
          (Sha1.sum (bytes_of_string (String.append key GUID))))
    (String.append CRLF CRLF)))))))).

(** ** Sample inputs *)

(** A browser's upgrade request with the key of RFC 6455, section 1.3. *)
Definition sample_request : Request :=
  {| Method := "GET"; ProtoMajor := 1; ProtoMinor := 1;
     Header := fun name =>
       if String.eqb name "Upgrade" then "websocket"
       else if String.eqb name "Connection" then "Upgrade"
       else if String.eqb name "Sec-Fetch-Mode" then "websocket"
       else if String.eqb name "Sec-WebSocket-Version" then "13"
       else if String.eqb name "Origin" then "http://localhost:8080"
       else if String.eqb name "Sec-WebSocket-Key" then "dGhlIHNhbXBsZSBub25jZQ=="
       else EmptyString |}%string.

(** A connection whose peer has sent the chunks [inc]. *)
Definition sample_conn (inc : list (list byte)) : Conn :=
  {| incoming := inc; sent := []; up := true; closed := false |}.

Definition initial_world : World := {| g := initial_globals; log := [] |}.

(** An open connection with the three handlers set, whose peer has sent
    the chunks [inc], registered under id 1. *)
Definition sample_ws (inc : list (list byte)) : WebSocket :=
  {| ID := 1; rw := {| rbuf := []; wbuf := [] |}; conn := sample_conn inc;
     protocol := EmptyString; extensions := EmptyString;
     client_key := "dGhlIHNhbXBsZSBub25jZQ=="; is_open := true;
     ReceiveBinaryHandler := true; ReceiveTextHandler := true;
     ClosedHandler := true |}.

Definition sample_state (inc : list (list byte)) : State :=
  {| ws := sample_ws inc;
     world :=
       {| g := {| global_id_gen := 1; global_websocket_count := 1;
                  global_websockets := {[ 1 := sample_ws inc ]};
                  global_frame_max_size := 1024 * 1024;
                  global_max_websockets := 1000 |};
          log := [] |} |}.

(** A hijacked connection whose peer is gone: writes fail. *)
Definition dead_conn : Conn :=
  {| incoming := []; sent := []; up := false; closed := false |}.

(** A Binary frame whose 64-bit length field is 0x8000000000000000. *)
Definition huge_frame : list byte := [130; 127; 128; 0; 0; 0; 0; 0; 0; 0].

(** The connection [Upgrade] returns for [sample_request] on a fresh
    connection in the initial world. *)
Definition sample_upgraded : WebSocket :=
  {| ID := 1; rw := {| rbuf := []; wbuf := [] |};
     conn := {| incoming := [];
                sent := bytes_of_string
                          (handshake_response "dGhlIHNhbXBsZSBub25jZQ==");
                up := true; closed := false |};
     protocol := EmptyString; extensions := EmptyString;
     client_key := "dGhlIHNhbXBsZSBub25jZQ=="; is_open := true;
     ReceiveBinaryHandler := false; ReceiveTextHandler := false;
     ClosedHandler := false |}.

(** [sample_request] with an extension offered. *)
Definition sample_request_deflate : Request :=
  {| Method := Method sample_request;
     ProtoMajor := ProtoMajor sample_request;
     ProtoMinor := ProtoMinor sample_request;
     Header := fun name =>
       if String.eqb name "Sec-WebSocket-Extensions"
       then "permessage-deflate"%string
       else Header sample_request name |}.

(** ** States used to state the properties *)

(** The state after a read that left [buf] in the read buffer and [inc]
    on the connection. *)
Definition feed (buf : list byte) (inc : list (list byte)) (s : State)
    : State :=
  on_ws (set_input buf inc) s.

(** The state after a flush that sent [bs]. *)
Definition transmit (bs : list byte) (s : State) : State :=
  on_ws (fun w =>
           set_conn (fun c => {| incoming := incoming c; sent := sent c ++ bs;
                                 up := up c; closed := closed c |})
             (set_rw (fun r => {| rbuf := rbuf r; wbuf := [] |}) w)) s.

(** The state after a write of [p] to the write buffer. *)
Definition buffer (p : list byte) (s : State) : State :=
  on_ws (set_rw (fun r => {| rbuf := rbuf r; wbuf := wbuf r ++ p |})) s.

(** The bytes a connection can still read, in order: the read buffer,
    then the chunks of the connection unless it was closed. *)
Definition stream (s : State) : list byte :=
  rbuf (rw (ws s))
  ++ (if closed (conn (ws s)) then [] else concat (incoming (conn (ws s)))).

(** The bytes the peer has sent and the connection has not consumed. *)
Definition pending (s : State) : nat :=
  length (rbuf (rw (ws s))) + length (concat (incoming (conn (ws s)))).

(** A computation that ends (in the model: never for lack of fuel) and
    gives no byte back to the stream. *)
Definition quiet {A} (m : M State A) : Prop :=
  forall s r s',
    m s = (r, s') -> r <> OutOfFuel /\ (pending s' <= pending s)%nat.

(** The transport takes what is flushed. *)
Definition writable (s : State) : bool :=
  up (conn (ws s)) && negb (closed (conn (ws s))).

(** The extended length field: its size for a base length, and the
    length [readFrame] decodes from it. *)
Definition ext_size (base : Z) : nat :=
  if base =? 126 then 2 else if base =? 127 then 8 else 0.

Definition decode_length (base : Z) (ext : list byte) : Z :=
  if base =? 126 then length16 ext
  else if base =? 127 then length64 ext
  else base.

(** The first byte of a frame [readFrame] goes on with: FIN set, the
    three RSV bits clear, one of the six opcodes. *)
Definition fin_set (b1 : Z) : Prop := Z.land b1 128 = 128.

Definition rsv_clear (b1 : Z) : Prop :=
  Z.land b1 64 <> 64 /\ Z.land b1 32 <> 32 /\ Z.land b1 16 <> 16.

Definition known_opcode (opcode : Z) : Prop :=
  In opcode [OPCODE_CONTINUATION; OPCODE_TEXT; OPCODE_BINARY; OPCODE_CLOSE;
             OPCODE_PING; OPCODE_PONG].

(** The mask flag of the second byte, and the size of the key field. *)
Definition mask_flag (b2 : Z) : bool := Z.land b2 128 =? 128.

Definition key_size (b2 : Z) : nat := if mask_flag b2 then 4 else 0.

(** The payload a frame carries: the data field, unmasked with the key
    when the mask flag is set. *)
Definition unmasked (b2 : Z) (key data : list byte) : option (list byte) :=
  if mask_flag b2 then maskData key data else Some data.

(** The header of an unmasked frame as the specification lays it out:
    the length inline up to 125, on 16 bits up to 65535, on 64 bits
    above. *)
Definition tier_header (opcode : byte) (len : Z) : list byte :=
  if len <=? 125 then [Z.lor 128 opcode; len]
  else if len <=? 65535 then
    [Z.lor 128 opcode; 126; Z.land (Z.shiftr len 8) 255; Z.land len 255]
  else
    [Z.lor 128 opcode; 127;
     Z.land (Z.shiftr len 56) 255; Z.land (Z.shiftr len 48) 255;
     Z.land (Z.shiftr len 40) 255; Z.land (Z.shiftr len 32) 255;
     Z.land (Z.shiftr len 24) 255; Z.land (Z.shiftr len 16) 255;
     Z.land (Z.shiftr len 8) 255; Z.land len 255].

(** The handler call a data frame ends in. *)
Definition received (opcode : byte) (id : Z) (payload : list byte) : Event :=
  if opcode =? OPCODE_TEXT then EvReceiveText id payload
  else EvReceiveBinary id payload.

(** * Properties *)

(** ** The monad *)

Lemma bind_Ok {S A B} (m : M S A) (k : A -> M S B) s a s' :
  m s = (Ok a, s') -> bind m k s = k a s'.
Proof. intros H. unfold bind. now rewrite H. Qed.

Lemma bind_Err {S A B} (m : M S A) (k : A -> M S B) s e s' :
  m s = (Err e, s') -> bind m k s = (Err e, s').
Proof. intros H. unfold bind. now rewrite H. Qed.

Lemma bind_Panic {S A B} (m : M S A) (k : A -> M S B) s s' :
  m s = (Panic, s') -> bind m k s = (Panic, s').
Proof. intros H. unfold bind. now rewrite H. Qed.

(** ** Masking *)

Section Masking.

Variable mask_key : list byte.
Hypothesis key_length : length mask_key = 4%nat.

Lemma mask_key_lookup (i : nat) : is_Some (mask_key !! (i mod 4)%nat).
Proof.
  apply lookup_lt_is_Some. rewrite key_length.
  apply Nat.mod_upper_bound. discriminate.
Qed.

Lemma maskData_from_twice (data : list byte) :
  forall i, exists masked,
    maskData_from i mask_key data = Some masked
    /\ maskData_from i mask_key masked = Some data.
Proof.
  induction data as [|d rest IH]; intros i; cbn [maskData_from].
  - exists []. split; reflexivity.
  - destruct (mask_key_lookup i) as [k Hk]. rewrite Hk.
    destruct (IH (S i)) as (rest' & Hm & Hu). rewrite Hm.
    exists (Z.lxor d k :: rest'). split; [reflexivity|].
    cbn [maskData_from]. rewrite Hk, Hu.
    now rewrite Z.lxor_assoc, Z.lxor_nilpotent, Z.lxor_0_r.
Qed.

Lemma maskData_from_length (data masked : list byte) :
  forall i, maskData_from i mask_key data = Some masked ->
            length masked = length data.
Proof.
  revert masked.
  induction data as [|d rest IH]; intros masked i; cbn [maskData_from].
  - intros [= <-]. reflexivity.
  - destruct (mask_key !! (i mod 4)%nat); [|discriminate].
    destruct (maskData_from (S i) mask_key rest) as [rest'|] eqn:E;
      [|discriminate].
    intros [= <-]. simpl. f_equal. eapply IH, E.
Qed.

End Masking.

(** C9. Masking is an involution: for every payload, whatever its length,
    and every key of four bytes, [maskData] with the key succeeds, and
    [maskData] with the same key on its result gives the payload back. *)
Theorem maskData_involutive (mask_key data : list byte) :
  length mask_key = 4%nat ->
  exists masked,
    maskData mask_key data = Some masked
    /\ maskData mask_key masked = Some data.
Proof.
  intros Hk. unfold maskData. apply maskData_from_twice, Hk.
Qed.

Lemma maskData_involutive_witness :
  exists masked,
    maskData [55; 250; 33; 61] [72; 101; 108; 108; 111] = Some masked
    /\ maskData [55; 250; 33; 61] masked = Some [72; 101; 108; 108; 111].
Proof.
  apply (maskData_involutive [55; 250; 33; 61] [72; 101; 108; 108; 111]).
  reflexivity.
Defined.

(** ** The handshake *)

Lemma bytes_of_string_app (a b : string) :
  bytes_of_string (String.append a b) = bytes_of_string a ++ bytes_of_string b.
Proof.
  unfold bytes_of_string. induction a as [|c a IH]; simpl.
  - reflexivity.
  - f_equal. exact IH.
Qed.

(** What a successful [makeWebSocket] returns: the hijacked connection,
    open, with the client's key and with no protocol and no extension. *)
Lemma makeWebSocket_Ok w r wd made wd' :
  makeWebSocket w r wd = (Ok made, wd') ->
  exists c buffered,
    w = Hijackable c buffered
    /\ made = {| ID := global_id_gen (g wd');
                 rw := {| rbuf := buffered; wbuf := [] |}; conn := c;
                 protocol := EmptyString; extensions := EmptyString;
                 client_key := Header r "Sec-WebSocket-Key"; is_open := true;
                 ReceiveBinaryHandler := false; ReceiveTextHandler := false;
                 ClosedHandler := false |}.
Proof.
  unfold makeWebSocket, validateProtocolHeader, validateExtensionsHeader.
  repeat match goal with
         | |- context [if ?b then fail _ else _] =>
             destruct b; [unfold fail; discriminate|]
         end.
  unfold bind at 1 2 3. unfold ret at 1 2.
  destruct (incrementGlobalWebsocketCount wd) as [[[|]| | |] wd1];
    try discriminate.
  destruct w as [c buffered| |]; try discriminate.
  cbn. intros [= <- <-]. exists c, buffered. split; reflexivity.
Qed.

(** *** Writing *)

Lemma bind_Write {B} p (k : unit -> M State B) s :
  bind (Write p) k s = k tt (buffer p s).
Proof. reflexivity. Qed.

Lemma bind_Fprintf {B} line (k : unit -> M State B) s :
  bind (Fprintf line) k s = k tt (buffer (bytes_of_string line) s).
Proof. reflexivity. Qed.

Lemma bind_gets {A B} (f : State -> A) (k : A -> M State B) s :
  bind (gets f) k s = k (f s) s.
Proof. reflexivity. Qed.

Lemma bind_ret {S A B} (a : A) (k : A -> M S B) s : bind (ret a) k s = k a s.
Proof. reflexivity. Qed.

Lemma buffer_buffer p q s : buffer q (buffer p s) = buffer (p ++ q) s.
Proof.
  destruct s as [[id [rb wb] c pr ex key op hb ht hc] wd].
  unfold buffer, on_ws, set_rw. cbn [ws rw rbuf wbuf world conn ID protocol
    extensions client_key is_open ReceiveBinaryHandler ReceiveTextHandler
    ClosedHandler]. now rewrite app_assoc.
Qed.

Lemma writable_buffer p s : writable (buffer p s) = writable s.
Proof. reflexivity. Qed.

Lemma world_buffer p s : world (buffer p s) = world s.
Proof. reflexivity. Qed.

Lemma protocol_buffer p s : protocol (ws (buffer p s)) = protocol (ws s).
Proof. reflexivity. Qed.

Lemma extensions_buffer p s : extensions (ws (buffer p s)) = extensions (ws s).
Proof. reflexivity. Qed.

Lemma Flush_writable s :
  writable s = true -> Flush s = (Ok tt, transmit (wbuf (rw (ws s))) s).
Proof. unfold Flush, writable. intros ->. reflexivity. Qed.

Lemma Flush_down s : writable s = false -> Flush s = (Err ErrTransport, s).
Proof. unfold Flush, writable. intros ->. reflexivity. Qed.

(** On a connection without protocol and extension the response is the
    text above: it is put in the write buffer and flushed. *)
Lemma sendWebSocketHandshakeResponse_plain s :
  protocol (ws s) = EmptyString ->
  extensions (ws s) = EmptyString ->
  sendWebSocketHandshakeResponse s
  = Flush (buffer (bytes_of_string (handshake_response (client_key (ws s)))) s).
Proof.
  intros Hp He. unfold sendWebSocketHandshakeResponse.
  rewrite bind_gets, !bind_Fprintf, bind_gets. cbv beta.
  rewrite !protocol_buffer, Hp. cbn [String.eqb negb].
  rewrite bind_ret, bind_gets. cbv beta.
  rewrite !extensions_buffer, He. cbn [String.eqb negb]. rewrite bind_ret, bind_Fprintf.
  rewrite !buffer_buffer. unfold handshake_response, accept_key.
  rewrite !bytes_of_string_app, <- !app_assoc. reflexivity.
Qed.

(** C1. A successful [Upgrade] has sent, on the hijacked connection,
    exactly the status line "HTTP/1.1 101 Switching Protocols", the
    Upgrade, Connection and Sec-WebSocket-Accept headers and a blank
    line, the accept value being the base64 text of the SHA-1 digest of
    the client's key followed by the GUID; and the accept value of the
    key "dGhlIHNhbXBsZSBub25jZQ==" is "s3pPLMBiTxaQ9kYGzzhZRbK+xOo=". *)
Theorem Upgrade_handshake_response w r wd made wd'
    (Hok : Upgrade w r wd = (Ok made, wd')) :
  (exists c buffered,
      w = Hijackable c buffered
      /\ sent (conn made) =
           sent c
           ++ bytes_of_string
                (handshake_response (Header r "Sec-WebSocket-Key"))
      /\ wbuf (rw made) = [])
  /\ accept_key "dGhlIHNhbXBsZSBub25jZQ==" = "s3pPLMBiTxaQ9kYGzzhZRbK+xOo="%string.
Proof.
  split; [|vm_compute; reflexivity].
  unfold Upgrade in Hok. unfold bind at 1 in Hok.
  destruct (makeWebSocket w r wd) as [[m| | |] wd1] eqn:Hmake;
    try discriminate.
  apply makeWebSocket_Ok in Hmake as (c & buffered & -> & ->).
  exists c, buffered. split; [reflexivity|].
  rewrite sendWebSocketHandshakeResponse_plain in Hok by reflexivity.
  match type of Hok with
  | context [Flush ?s] => destruct (writable s) eqn:Hw
  end.
  - rewrite (Flush_writable _ Hw) in Hok. injection Hok as <- <-.
    split; reflexivity.
  - rewrite (Flush_down _ Hw) in Hok. discriminate.
Qed.

Lemma Upgrade_handshake_response_witness :
  let w := Hijackable (sample_conn []) [] in
  let out := Upgrade w sample_request initial_world in
  let made :=
    {| ID := 1; rw := {| rbuf := []; wbuf := [] |};
       conn := {| incoming := [];
                  sent := bytes_of_string
                            (handshake_response "dGhlIHNhbXBsZSBub25jZQ==");
                  up := true; closed := false |};
       protocol := EmptyString; extensions := EmptyString;
       client_key := "dGhlIHNhbXBsZSBub25jZQ=="; is_open := true;
       ReceiveBinaryHandler := false; ReceiveTextHandler := false;
       ClosedHandler := false |} in
  out = (Ok made, snd out)
  /\ (exists c buffered,
         w = Hijackable c buffered
         /\ sent (conn made) =
              sent c
              ++ bytes_of_string
                   (handshake_response (Header sample_request "Sec-WebSocket-Key"))
         /\ wbuf (rw made) = [])
  /\ accept_key "dGhlIHNhbXBsZSBub25jZQ==" = "s3pPLMBiTxaQ9kYGzzhZRbK+xOo="%string.
Proof.
  intros w out made.
  assert (H : out = (Ok made, snd out)) by (vm_compute; reflexivity).
  split; [exact H|].
  exact (Upgrade_handshake_response w sample_request initial_world made
           (snd out) H).
Defined.

(** ** Reading from the buffered connection *)

Lemma fill_feed buf inc s :
  buf <> [] -> fill (ws (feed buf inc s)) = Some (buf, inc).
Proof.
  intros Hne. destruct buf as [|b buf]; [congruence|]. reflexivity.
Qed.

Lemma feed_feed buf1 inc1 buf2 inc2 s :
  feed buf2 inc2 (feed buf1 inc1 s) = feed buf2 inc2 s.
Proof. reflexivity. Qed.

Lemma world_feed buf inc s : world (feed buf inc s) = world s.
Proof. reflexivity. Qed.

Lemma is_open_feed buf inc s : is_open (ws (feed buf inc s)) = is_open (ws s).
Proof. reflexivity. Qed.

Lemma ReadByte_fill s b buf inc :
  fill (ws s) = Some (b :: buf, inc) -> ReadByte s = (Ok b, feed buf inc s).
Proof. intros H. unfold ReadByte. now rewrite H. Qed.

Lemma ReadByte_feed b buf inc s :
  ReadByte (feed (b :: buf) inc s) = (Ok b, feed buf inc s).
Proof. reflexivity. Qed.

(** A read of [k > 0] bytes when the buffer holds at least as many. *)
Lemma Read_feed k p q inc s :
  length p = k -> (0 < k)%nat ->
  Read k (feed (p ++ q) inc s) = (Ok p, feed q inc s).
Proof.
  intros Hlen Hk. unfold Read. rewrite fill_feed.
  - rewrite take_app_length' by (symmetry; exact Hlen).
    rewrite drop_app_length' by (symmetry; exact Hlen). reflexivity.
  - destruct p; [simpl in Hlen; lia|discriminate].
Qed.

Lemma read_full_0 fuel : read_full fuel 0 = ret [].
Proof. destruct fuel; reflexivity. Qed.

(** The payload loop when the buffer holds the whole payload: one read. *)
Lemma read_full_feed p q inc s :
  read_full (length p) (length p) (feed (p ++ q) inc s)
  = (Ok p, feed q inc s).
Proof.
  destruct p as [|b p].
  - reflexivity.
  - cbn [length read_full].
    erewrite bind_Ok; [|apply Read_feed; [reflexivity|cbn [length]; lia]].
    cbn [length]. rewrite Nat.sub_diag, read_full_0.
    unfold bind, ret. now rewrite app_nil_r.
Qed.

(** ** Decoding a buffered frame *)

(** A frame that the read buffer holds whole, with a well-formed first
    byte and a length within the maximum, is consumed exactly and its
    unmasked payload is handed to the opcode switch. *)
Lemma readFrame_buffered s b1 b2 ext key data more inc payload :
  fill (ws s) = Some (b1 :: b2 :: ext ++ key ++ data ++ more, inc) ->
  is_open (ws s) = true ->
  fin_set b1 -> rsv_clear b1 -> known_opcode (Z.land b1 15) ->
  length ext = ext_size (Z.land b2 127) ->
  0 <= decode_length (Z.land b2 127) ext <= global_frame_max_size (g (world s)) ->
  length key = key_size b2 ->
  length data = Z.to_nat (decode_length (Z.land b2 127) ext) ->
  unmasked b2 key data = Some payload ->
  readFrame s = dispatch (Z.land b1 15) payload (feed more inc s).
Proof.
  intros Hfill Hopen Hfin (Hr1 & Hr2 & Hr3) Hop Hext Hlen Hkey Hdata Hpay.
  unfold readFrame.
  erewrite bind_Ok by (apply ReadByte_fill, Hfill).
  unfold bind at 1, gets at 1. rewrite is_open_feed, Hopen. cbn [negb].
  unfold fin_set in Hfin. rewrite Hfin. cbn [Z.eqb Pos.eqb negb].
  apply Z.eqb_neq in Hr1, Hr2, Hr3. rewrite Hr1, Hr2, Hr3. cbn [orb].
  replace (negb _) with false.
  2:{ unfold known_opcode in Hop. cbn [In] in Hop.
      destruct Hop as [<-|[<-|[<-|[<-|[<-|[<-|[]]]]]]]; reflexivity. }
  erewrite bind_Ok by apply ReadByte_feed.
  set (len := decode_length (Z.land b2 127) ext) in *.
  erewrite (bind_Ok _ _ _ len (feed (key ++ data ++ more) inc s)).
  2:{ subst len. unfold decode_length, ext_size in *.
      destruct (Z.land b2 127 =? 126).
      - erewrite bind_Ok by (apply Read_feed; [exact Hext|lia]).
        rewrite Hext. reflexivity.
      - destruct (Z.land b2 127 =? 127).
        + erewrite bind_Ok by (apply Read_feed; [exact Hext|lia]).
          rewrite Hext. reflexivity.
        + destruct ext; [reflexivity|discriminate]. }
  unfold bind at 1, gets at 1. rewrite world_feed.
  replace (_ <? len) with false by (symmetry; apply Z.ltb_ge; lia).
  unfold unmasked, key_size, mask_flag in *.
  replace (len <? 0) with false by (symmetry; apply Z.ltb_ge; lia).
  destruct (Z.land b2 128 =? 128).
  - erewrite (bind_Ok _ _ _ key (feed (data ++ more) inc s)).
    2:{ erewrite bind_Ok by (apply Read_feed; [exact Hkey|lia]).
        rewrite Hkey. reflexivity. }
    rewrite <- Hdata.
    erewrite bind_Ok by apply read_full_feed.
    rewrite Hpay. reflexivity.
  - destruct key; [|discriminate]. cbn [app].
    unfold bind at 1, ret at 1. rewrite <- Hdata.
    erewrite bind_Ok by apply read_full_feed.
    injection Hpay as <-. reflexivity.
Qed.

(** ** The length field: what [sendFrame] writes, [readFrame] reads back *)

Lemma wrap64_small z :
  - 9223372036854775808 <= z < 9223372036854775808 -> wrap64 z = z.
Proof.
  intros H. unfold wrap64, wrap_signed.
  change (2 ^ (64 - 1)) with 9223372036854775808.
  change (2 ^ 64) with 18446744073709551616.
  rewrite Z.mod_small; lia.
Qed.

Lemma testbit_255 j : Z.testbit 255 j = (0 <=? j) && (j <? 8).
Proof.
  change 255 with (Z.ones 8).
  destruct (Z.leb_spec 0 j); [destruct (Z.ltb_spec j 8)|]; cbn [andb].
  - apply Z.ones_spec_low. lia.
  - apply Z.ones_spec_high. lia.
  - apply Z.testbit_neg_r. lia.
Qed.

(** The byte of [n] at bit [k], put back at its place. *)
Lemma testbit_byte_part n k i :
  0 <= k -> 0 <= i ->
  Z.testbit (Z.shiftl (Z.land (Z.shiftr n k) 255) k) i
  = Z.testbit n i && ((k <=? i) && (i <? k + 8)).
Proof.
  intros Hk Hi. rewrite Z.shiftl_spec by exact Hi.
  destruct (Z.leb_spec k i).
  - rewrite Z.land_spec, Z.shiftr_spec, testbit_255 by lia.
    replace (i - k + k) with i by lia.
    replace (0 <=? i - k) with true by (symmetry; apply Z.leb_le; lia).
    destruct (Z.ltb_spec (i - k) 8), (Z.ltb_spec i (k + 8)); try lia;
      reflexivity.
  - rewrite Z.testbit_neg_r by lia. cbn [andb]. now rewrite andb_false_r.
Qed.

Lemma byte_part_bounds n k :
  0 <= k -> 0 <= Z.shiftl (Z.land (Z.shiftr n k) 255) k < 2 ^ (k + 8).
Proof.
  intros Hk.
  assert (Hb : 0 <= Z.land (Z.shiftr n k) 255 < 256).
  { change 255 with (Z.ones 8). rewrite Z.land_ones by lia.
    apply Z.mod_pos_bound. reflexivity. }
  rewrite Z.shiftl_mul_pow2 by exact Hk.
  rewrite Z.pow_add_r by lia. change (2 ^ 8) with 256.
  assert (0 < 2 ^ k) by (apply Z.pow_pos_nonneg; lia). nia.
Qed.

Lemma testbit_above n i b :
  0 <= n < 2 ^ b -> b <= i -> Z.testbit n i = false.
Proof.
  intros Hn Hi. destruct (Z.eq_dec n 0) as [->|Hne].
  - apply Z.bits_0.
  - apply Z.bits_above_log2; [lia|].
    assert (Z.log2 n < b) by (apply Z.log2_lt_pow2; lia). lia.
Qed.

Lemma length16_encode n :
  0 <= n < 65536 ->
  length16 [Z.land (Z.shiftr n 8) 255; Z.land n 255] = n.
Proof.
  intros Hn. unfold length16, byte_at, shl64. cbn [nth].
  rewrite wrap64_small.
  2:{ pose proof (byte_part_bounds n 8 ltac:(lia)) as Hb.
      change (2 ^ (8 + 8)) with 65536 in Hb. lia. }
  replace (Z.land n 255) with (Z.shiftl (Z.land (Z.shiftr n 0) 255) 0)
    by (now rewrite Z.shiftl_0_r, Z.shiftr_0_r).
  apply Z.bits_inj'. intros i Hi.
  rewrite Z.lor_spec, !testbit_byte_part by lia.
  destruct (Z.ltb_spec i 16).
  - destruct (Z.testbit n i); cbn [andb]; [|reflexivity].
    destruct (Z.leb_spec 8 i), (Z.ltb_spec i (8 + 8)), (Z.leb_spec 0 i),
      (Z.ltb_spec i (0 + 8)); try lia; reflexivity.
  - rewrite (testbit_above n i 16) by (change (2 ^ 16) with 65536; lia).
    reflexivity.
Qed.

Lemma shl64_byte_part n k :
  0 <= k <= 48 -> 0 <= n ->
  shl64 (Z.land (Z.shiftr n k) 255) k
  = Z.shiftl (Z.land (Z.shiftr n k) 255) k.
Proof.
  intros Hk Hn. unfold shl64. apply wrap64_small.
  pose proof (byte_part_bounds n k ltac:(lia)) as Hb.
  assert (2 ^ (k + 8) <= 2 ^ 56) by (apply Z.pow_le_mono_r; lia).
  change (2 ^ 56) with 72057594037927936 in *. lia.
Qed.

Lemma shl64_top_byte n :
  0 <= n < 9223372036854775808 ->
  shl64 (Z.land (Z.shiftr n 56) 255) 56
  = Z.shiftl (Z.land (Z.shiftr n 56) 255) 56.
Proof.
  intros Hn. unfold shl64. apply wrap64_small.
  assert (Htop : 0 <= Z.shiftr n 56 < 128).
  { rewrite Z.shiftr_div_pow2 by lia.
    change (2 ^ 56) with 72057594037927936.
    split; [apply Z.div_pos; lia|apply Z.div_lt_upper_bound; lia]. }
  assert (Hland : Z.land (Z.shiftr n 56) 255 = Z.shiftr n 56).
  { change 255 with (Z.ones 8). rewrite Z.land_ones by lia.
    apply Z.mod_small. change (2 ^ 8) with 256. lia. }
  rewrite Hland, Z.shiftl_mul_pow2 by lia.
  change (2 ^ 56) with 72057594037927936. lia.
Qed.

Lemma length64_encode n :
  0 <= n < 9223372036854775808 ->
  length64 [Z.land (Z.shiftr n 56) 255; Z.land (Z.shiftr n 48) 255;
            Z.land (Z.shiftr n 40) 255; Z.land (Z.shiftr n 32) 255;
            Z.land (Z.shiftr n 24) 255; Z.land (Z.shiftr n 16) 255;
            Z.land (Z.shiftr n 8) 255; Z.land n 255] = n.
Proof.
  intros Hn. unfold length64, byte_at. cbn [nth].
  rewrite shl64_top_byte by exact Hn.
  rewrite !shl64_byte_part by lia.
  replace (Z.land n 255) with (Z.shiftl (Z.land (Z.shiftr n 0) 255) 0)
    by (now rewrite Z.shiftl_0_r, Z.shiftr_0_r).
  apply Z.bits_inj'. intros i Hi.
  rewrite !Z.lor_spec, !testbit_byte_part by lia.
  destruct (Z.ltb_spec i 64).
  - destruct (Z.testbit n i); cbn [andb orb]; [|reflexivity].
    repeat match goal with
           | |- context [?a <=? ?b] => destruct (Z.leb_spec a b); try lia
           | |- context [?a <? ?b] => destruct (Z.ltb_spec a b); try lia
           end; reflexivity.
  - rewrite (testbit_above n i 63)
      by (change (2 ^ 63) with 9223372036854775808; lia).
    reflexivity.
Qed.

(** ** Encoding a frame *)

Lemma land_127_small x : 0 <= x < 128 -> Z.land x 127 = x.
Proof.
  intros H. change 127 with (Z.ones 7). rewrite Z.land_ones by lia.
  apply Z.mod_small. change (2 ^ 7) with 128. lia.
Qed.

Lemma land_128_small x : 0 <= x < 128 -> Z.land x 128 = 0.
Proof.
  intros H. apply Z.bits_inj'. intros i Hi.
  rewrite Z.land_spec, Z.bits_0. change 128 with (2 ^ 7).
  rewrite Z.pow2_bits_eqb by lia.
  destruct (Z.eqb_spec 7 i) as [<-|Hne].
  - rewrite (testbit_above x 7 7) by (change (2 ^ 7) with 128; lia).
    reflexivity.
  - apply andb_false_r.
Qed.

(** [sendFrame] lays the header out in the three tiers. *)
Lemma frame_header_tiers opcode len :
  0 <= len -> frame_header opcode [] len = tier_header opcode len.
Proof.
  intros Hlen. unfold frame_header, tier_header. cbn [length Nat.eqb].
  destruct (Z.leb_spec len 125).
  - unfold wrap8. rewrite Z.mod_small by lia. rewrite Z.lor_0_l.
    rewrite land_127_small by lia.
    destruct (Z.eqb_spec len 126); [lia|].
    destruct (Z.eqb_spec len 127); [lia|]. reflexivity.
  - destruct (Z.leb_spec len 65535); reflexivity.
Qed.

(** The fields of the header of an unmasked frame: no mask flag, and a
    length field that [readFrame] decodes to the length written. *)
Lemma tier_header_fields opcode len :
  0 <= len < 9223372036854775808 ->
  exists b2 ext,
    tier_header opcode len = Z.lor 128 opcode :: b2 :: ext
    /\ mask_flag b2 = false
    /\ length ext = ext_size (Z.land b2 127)
    /\ decode_length (Z.land b2 127) ext = len.
Proof.
  intros Hlen. unfold tier_header, mask_flag, decode_length, ext_size.
  destruct (Z.leb_spec len 125).
  - exists len, []. rewrite land_128_small, land_127_small by lia.
    destruct (Z.eqb_spec len 126); [lia|].
    destruct (Z.eqb_spec len 127); [lia|]. repeat split.
  - destruct (Z.leb_spec len 65535).
    + eexists _, _. split; [reflexivity|]. cbn [Z.land Pos.land Z.eqb
        Pos.eqb length]. repeat split. apply length16_encode. lia.
    + eexists _, _. split; [reflexivity|]. cbn [Z.land Pos.land Z.eqb
        Pos.eqb length]. repeat split. apply length64_encode. lia.
Qed.

Lemma transmit_buffer bs p s : transmit bs (buffer p s) = transmit bs s.
Proof. reflexivity. Qed.

(** An unmasked frame: the header and the payload are buffered, then
    flushed. *)
Lemma sendFrame_unmasked opcode payload s :
  opcode <= 15 ->
  sendFrame opcode [] payload s
  = Flush (buffer (frame_header opcode [] (Z.of_nat (length payload))
                   ++ payload) s).
Proof.
  intros Hop. unfold sendFrame.
  replace (15 <? opcode) with false by (symmetry; apply Z.ltb_ge; lia).
  cbn [length Nat.eqb]. rewrite bind_ret, !bind_Write, buffer_buffer.
  reflexivity.
Qed.

(** On a transport that is up, with nothing pending in the write buffer,
    the peer is sent exactly the frame. *)
Lemma sendFrame_sent opcode payload s :
  opcode <= 15 -> writable s = true -> wbuf (rw (ws s)) = [] ->
  sendFrame opcode [] payload s
  = (Ok tt, transmit (frame_header opcode [] (Z.of_nat (length payload))
                      ++ payload) s).
Proof.
  intros Hop Hw Hb. rewrite sendFrame_unmasked by exact Hop.
  rewrite Flush_writable by exact Hw.
  rewrite transmit_buffer. unfold buffer, on_ws, set_rw.
  cbn [ws rw wbuf]. now rewrite Hb.
Qed.

(** ** The opcode switch *)

Lemma ignore_error_Ok {S} (m : M S unit) s s' :
  m s = (Ok tt, s') -> ignore_error m s = (Ok tt, s').
Proof. intros H. unfold ignore_error. now rewrite H. Qed.

Lemma dispatch_ping data s :
  dispatch OPCODE_PING data s = ignore_error (sendFrame OPCODE_PONG [] data) s.
Proof. reflexivity. Qed.

Lemma dispatch_text data s :
  dispatch OPCODE_TEXT data s
  = if ReceiveTextHandler (ws s)
    then (Ok tt, on_world (record (EvReceiveText (ID (ws s)) data)) s)
    else (Ok tt, s).
Proof.
  unfold dispatch. cbn [Z.eqb Pos.eqb OPCODE_TEXT OPCODE_CLOSE OPCODE_PING
    OPCODE_PONG]. rewrite bind_gets. now destruct (ReceiveTextHandler (ws s)).
Qed.

Lemma dispatch_binary data s :
  dispatch OPCODE_BINARY data s
  = if ReceiveBinaryHandler (ws s)
    then (Ok tt, on_world (record (EvReceiveBinary (ID (ws s)) data)) s)
    else (Ok tt, s).
Proof.
  unfold dispatch. cbn [Z.eqb Pos.eqb OPCODE_TEXT OPCODE_BINARY OPCODE_CLOSE
    OPCODE_PING OPCODE_PONG]. rewrite bind_gets.
  now destruct (ReceiveBinaryHandler (ws s)).
Qed.

Lemma dispatch_continuation data s :
  dispatch OPCODE_CONTINUATION data s = (Ok tt, s).
Proof. reflexivity. Qed.

Lemma dispatch_pong data s : dispatch OPCODE_PONG data s = (Ok tt, s).
Proof. reflexivity. Qed.

(** ** Frames received *)

(** C8. A Ping frame held by the read buffer of an open connection whose
    transport is up: [readFrame] returns nil, the peer is sent exactly
    one frame, a Pong (first byte 0x8A) with the unmasked payload of the
    Ping, byte for byte, and no handler is called (the trace is
    unchanged). *)
Theorem ping_is_answered_by_one_pong
    s b1 b2 ext key data more inc payload
    (Hfill : fill (ws s) = Some (b1 :: b2 :: ext ++ key ++ data ++ more, inc))
    (Hopen : is_open (ws s) = true)
    (Hup : writable s = true)
    (Hbuf : wbuf (rw (ws s)) = [])
    (Hfin : fin_set b1) (Hrsv : rsv_clear b1)
    (Hop : Z.land b1 15 = OPCODE_PING)
    (Hext : length ext = ext_size (Z.land b2 127))
    (Hlen : 0 <= decode_length (Z.land b2 127) ext
            <= global_frame_max_size (g (world s)))
    (Hkey : length key = key_size b2)
    (Hdata : length data = Z.to_nat (decode_length (Z.land b2 127) ext))
    (Hpay : unmasked b2 key data = Some payload) :
  exists s',
    readFrame s = (Ok tt, s')
    /\ sent (conn (ws s'))
       = sent (conn (ws s))
         ++ tier_header OPCODE_PONG (Z.of_nat (length payload)) ++ payload
    /\ log (world s') = log (world s)
    /\ is_open (ws s') = true.
Proof.
  eexists. split.
  - erewrite readFrame_buffered; try eassumption.
    + rewrite Hop, dispatch_ping. apply ignore_error_Ok.
      apply sendFrame_sent; [discriminate|exact Hup|exact Hbuf].
    + rewrite Hop. unfold known_opcode. cbn. tauto.
  - rewrite frame_header_tiers by lia.
    destruct s as [[id [rb wb] [i st u cl] pr ex k op hb ht hc] wd].
    cbn in Hopen |- *. rewrite Hopen. now rewrite app_assoc.
Qed.

(** Side conditions of the concrete instances: they are closed, and
    evaluation settles them. *)
Ltac by_evaluation :=
  first [ reflexivity
        | vm_compute; repeat split; first [reflexivity | discriminate | lia]
        | vm_compute; tauto ].

Lemma ping_is_answered_by_one_pong_witness :
  exists s',
    readFrame
      (sample_state
         [[137; 137; 1; 2; 3; 4; 113; 107; 109; 99; 44; 102; 98; 112; 96]])
    = (Ok tt, s')
    /\ sent (conn (ws s'))
       = [] ++ tier_header OPCODE_PONG 9
            ++ [112; 105; 110; 103; 45; 100; 97; 116; 97]
    /\ log (world s') = []
    /\ is_open (ws s') = true.
Proof.
  refine (ping_is_answered_by_one_pong
            (sample_state
               [[137; 137; 1; 2; 3; 4; 113; 107; 109; 99; 44; 102; 98; 112; 96]])
            137 137 [] [1; 2; 3; 4] [113; 107; 109; 99; 44; 102; 98; 112; 96]
            [] [] [112; 105; 110; 103; 45; 100; 97; 116; 97]
            _ _ _ _ _ _ _ _ _ _ _ _); by_evaluation.
Defined.

(** C10. A Text frame held by the read buffer of an open connection with
    a text handler: [readFrame] returns nil and calls the handler once
    with the unmasked payload as it is, whatever its bytes are; nothing
    checks that they are UTF-8, nothing is sent, and no other handler is
    called. *)
Theorem text_payload_is_delivered_verbatim
    s b1 b2 ext key data more inc payload
    (Hfill : fill (ws s) = Some (b1 :: b2 :: ext ++ key ++ data ++ more, inc))
    (Hopen : is_open (ws s) = true)
    (Hhandler : ReceiveTextHandler (ws s) = true)
    (Hfin : fin_set b1) (Hrsv : rsv_clear b1)
    (Hop : Z.land b1 15 = OPCODE_TEXT)
    (Hext : length ext = ext_size (Z.land b2 127))
    (Hlen : 0 <= decode_length (Z.land b2 127) ext
            <= global_frame_max_size (g (world s)))
    (Hkey : length key = key_size b2)
    (Hdata : length data = Z.to_nat (decode_length (Z.land b2 127) ext))
    (Hpay : unmasked b2 key data = Some payload) :
  exists s',
    readFrame s = (Ok tt, s')
    /\ log (world s') = log (world s) ++ [EvReceiveText (ID (ws s)) payload]
    /\ sent (conn (ws s')) = sent (conn (ws s))
    /\ is_open (ws s') = true.
Proof.
  eexists. split.
  - erewrite readFrame_buffered; try eassumption.
    + rewrite Hop, dispatch_text.
      change (ReceiveTextHandler (ws (feed more inc s)))
        with (ReceiveTextHandler (ws s)).
      rewrite Hhandler. reflexivity.
    + rewrite Hop. unfold known_opcode. cbn. tauto.
  - repeat split. exact Hopen.
Qed.

(** The payload of the instance is no UTF-8 text: 0xC3 0x28 is a
    truncated two-byte sequence and 0xFF is no UTF-8 byte at all. *)
Lemma text_payload_is_delivered_verbatim_witness :
  exists s',
    readFrame (sample_state [[129; 131; 16; 32; 48; 64; 211; 8; 207]])
    = (Ok tt, s')
    /\ log (world s') = [] ++ [EvReceiveText 1 [195; 40; 255]]
    /\ sent (conn (ws s')) = []
    /\ is_open (ws s') = true.
Proof.
  refine (text_payload_is_delivered_verbatim
            (sample_state [[129; 131; 16; 32; 48; 64; 211; 8; 207]])
            129 131 [] [16; 32; 48; 64] [211; 8; 207] [] [] [195; 40; 255]
            _ _ _ _ _ _ _ _ _ _ _); by_evaluation.
Defined.

(** ** Frames refused *)

Section FirstByte.

Variables (s : State) (b1 : Z) (rest : list Z) (inc : list (list Z)).
Hypothesis Hfill : fill (ws s) = Some (b1 :: rest, inc).
Hypothesis Hopen : is_open (ws s) = true.

(** FIN clear: "Fragmented frames are not supported". *)
Lemma readFrame_fin_clear :
  Z.land b1 128 <> 128 -> readFrame s = (Err ErrFragmented, feed rest inc s).
Proof.
  intros Hfin. unfold readFrame.
  erewrite bind_Ok by (apply ReadByte_fill, Hfill).
  rewrite bind_gets, is_open_feed, Hopen. cbn [negb].
  apply Z.eqb_neq in Hfin. rewrite Hfin. reflexivity.
Qed.

(** An RSV bit set: "Unsupported RSV bits set". *)
Lemma readFrame_rsv_set :
  fin_set b1 ->
  Z.land b1 64 = 64 \/ Z.land b1 32 = 32 \/ Z.land b1 16 = 16 ->
  readFrame s = (Err ErrRSV, feed rest inc s).
Proof.
  intros Hfin Hrsv. unfold readFrame.
  erewrite bind_Ok by (apply ReadByte_fill, Hfill).
  rewrite bind_gets, is_open_feed, Hopen. cbn [negb].
  unfold fin_set in Hfin. rewrite Hfin. cbn [Z.eqb Pos.eqb negb].
  replace (_ || _ || _) with true; [reflexivity|].
  symmetry. rewrite !orb_true_iff, !Z.eqb_eq. tauto.
Qed.

(** An opcode outside the six: "Unsupported opcode". *)
Lemma readFrame_unknown_opcode :
  fin_set b1 -> rsv_clear b1 -> ~ known_opcode (Z.land b1 15) ->
  readFrame s = (Err (ErrOpcode (Z.land b1 15)), feed rest inc s).
Proof.
  intros Hfin (Hr1 & Hr2 & Hr3) Hop. unfold readFrame.
  erewrite bind_Ok by (apply ReadByte_fill, Hfill).
  rewrite bind_gets, is_open_feed, Hopen. cbn [negb].
  unfold fin_set in Hfin. rewrite Hfin. cbn [Z.eqb Pos.eqb negb].
  apply Z.eqb_neq in Hr1, Hr2, Hr3. rewrite Hr1, Hr2, Hr3. cbn [orb].
  replace (negb _) with true; [reflexivity|].
  symmetry. apply negb_true_iff, not_true_is_false. intros Hk. apply Hop.
  rewrite !orb_true_iff, !Z.eqb_eq in Hk. unfold known_opcode. cbn [In].
  intuition auto.
Qed.

End FirstByte.

(** A length above the maximum, once decoded:
    "Payload length ... exceeds maximum frame size". *)
Lemma readFrame_too_large s b1 b2 ext rest inc :
  fill (ws s) = Some (b1 :: b2 :: ext ++ rest, inc) ->
  is_open (ws s) = true ->
  fin_set b1 -> rsv_clear b1 -> known_opcode (Z.land b1 15) ->
  length ext = ext_size (Z.land b2 127) ->
  global_frame_max_size (g (world s)) < decode_length (Z.land b2 127) ext ->
  readFrame s
  = (Err (ErrTooLarge (decode_length (Z.land b2 127) ext)
            (global_frame_max_size (g (world s)))),
     feed rest inc s).
Proof.
  intros Hfill Hopen Hfin (Hr1 & Hr2 & Hr3) Hop Hext Hlen.
  unfold readFrame.
  erewrite bind_Ok by (apply ReadByte_fill, Hfill).
  rewrite bind_gets, is_open_feed, Hopen. cbn [negb].
  unfold fin_set in Hfin. rewrite Hfin. cbn [Z.eqb Pos.eqb negb].
  apply Z.eqb_neq in Hr1, Hr2, Hr3. rewrite Hr1, Hr2, Hr3. cbn [orb].
  replace (negb _) with false.
  2:{ unfold known_opcode in Hop. cbn [In] in Hop.
      destruct Hop as [<-|[<-|[<-|[<-|[<-|[<-|[]]]]]]]; reflexivity. }
  erewrite bind_Ok by apply ReadByte_feed.
  set (len := decode_length (Z.land b2 127) ext) in *.
  erewrite (bind_Ok _ _ _ len (feed rest inc s)).
  2:{ subst len. unfold decode_length, ext_size in *.
      destruct (Z.land b2 127 =? 126).
      - erewrite bind_Ok by (apply Read_feed; [exact Hext|lia]).
        rewrite Hext. reflexivity.
      - destruct (Z.land b2 127 =? 127).
        + erewrite bind_Ok by (apply Read_feed; [exact Hext|lia]).
          rewrite Hext. reflexivity.
        + destruct ext; [reflexivity|discriminate]. }
  rewrite bind_gets, world_feed.
  replace (_ <? len) with true by (symmetry; apply Z.ltb_lt; lia).
  reflexivity.
Qed.

(** ** Round trip *)

(** What [sendFrame] sends for a Text or Binary payload, [readFrame]
    decodes to the same opcode and payload, whatever the length below
    2^63 and within the maximum of the receiver. *)
Lemma data_frame_round_trip opcode payload rx more inc :
  opcode = OPCODE_TEXT \/ opcode = OPCODE_BINARY ->
  Z.of_nat (length payload) < 9223372036854775808 ->
  fill (ws rx)
  = Some ((tier_header opcode (Z.of_nat (length payload)) ++ payload) ++ more,
          inc) ->
  is_open (ws rx) = true ->
  ReceiveTextHandler (ws rx) = true ->
  ReceiveBinaryHandler (ws rx) = true ->
  Z.of_nat (length payload) <= global_frame_max_size (g (world rx)) ->
  readFrame rx
  = (Ok tt,
     on_world (record (received opcode (ID (ws rx)) payload))
       (feed more inc rx)).
Proof.
  intros Hop Hbound Hfill Hopen Ht Hb Hmax.
  destruct (tier_header_fields opcode (Z.of_nat (length payload)))
    as (b2 & ext & Hhdr & Hmask & Hext & Hdec); [lia|].
  rewrite Hhdr in Hfill. cbn [app] in Hfill. rewrite <- app_assoc in Hfill.
  erewrite (readFrame_buffered rx _ b2 ext [] payload more inc payload);
    try eassumption.
  - destruct Hop as [-> | ->].
    + change (Z.land (Z.lor 128 OPCODE_TEXT) 15) with OPCODE_TEXT.
      rewrite dispatch_text.
      change (ReceiveTextHandler (ws (feed more inc rx)))
        with (ReceiveTextHandler (ws rx)). now rewrite Ht.
    + change (Z.land (Z.lor 128 OPCODE_BINARY) 15) with OPCODE_BINARY.
      rewrite dispatch_binary.
      change (ReceiveBinaryHandler (ws (feed more inc rx)))
        with (ReceiveBinaryHandler (ws rx)). now rewrite Hb.
  - destruct Hop as [-> | ->]; reflexivity.
  - destruct Hop as [-> | ->]; repeat split; discriminate.
  - destruct Hop as [-> | ->]; unfold known_opcode; cbn; tauto.
  - rewrite Hdec. lia.
  - unfold key_size. now rewrite Hmask.
  - rewrite Hdec. now rewrite Nat2Z.id.
  - unfold unmasked. now rewrite Hmask.
Qed.

(** C2. For a Text or Binary payload of 0, 1, 125, 126, 65535 or 65536
    bytes, [sendFrame] without a key sends the tiered header (length
    inline up to 125, on 16 bits from 126 to 65535, on 64 bits from
    65536) followed by the payload, and [readFrame] on a connection whose
    read buffer holds these bytes calls the handler of the same opcode
    with the same payload. *)
Theorem frame_round_trip opcode payload tx
    (Hop : opcode = OPCODE_TEXT \/ opcode = OPCODE_BINARY)
    (Hlen : In (Z.of_nat (length payload)) [0; 1; 125; 126; 65535; 65536])
    (Hup : writable tx = true)
    (Hbuf : wbuf (rw (ws tx)) = []) :
  exists encoded tx',
    sendFrame opcode [] payload tx = (Ok tt, tx')
    /\ sent (conn (ws tx')) = sent (conn (ws tx)) ++ encoded
    /\ encoded = tier_header opcode (Z.of_nat (length payload)) ++ payload
    /\ forall rx more inc,
         fill (ws rx) = Some (encoded ++ more, inc) ->
         is_open (ws rx) = true ->
         ReceiveTextHandler (ws rx) = true ->
         ReceiveBinaryHandler (ws rx) = true ->
         Z.of_nat (length payload) <= global_frame_max_size (g (world rx)) ->
         readFrame rx
         = (Ok tt,
            on_world (record (received opcode (ID (ws rx)) payload))
              (feed more inc rx)).
Proof.
  assert (Hbound : Z.of_nat (length payload) < 9223372036854775808).
  { cbn [In] in Hlen.
    destruct Hlen as [H|[H|[H|[H|[H|[H|[]]]]]]]; rewrite <- H; reflexivity. }
  eexists _, _. split; [|split; [|split]].
  - apply sendFrame_sent; [destruct Hop as [-> | ->]; discriminate|
                           exact Hup|exact Hbuf].
  - rewrite frame_header_tiers by lia. reflexivity.
  - reflexivity.
  - intros rx more inc Hfill Hopen Ht Hb Hmax.
    apply data_frame_round_trip; assumption.
Qed.

Lemma frame_round_trip_witness :
  exists encoded tx',
    sendFrame OPCODE_BINARY [] (repeat 97 126) (sample_state [])
    = (Ok tt, tx')
    /\ sent (conn (ws tx')) = sent (conn (ws (sample_state []))) ++ encoded
    /\ encoded
       = tier_header OPCODE_BINARY (Z.of_nat (length (repeat 97 126)))
         ++ repeat 97 126
    /\ forall rx more inc,
         fill (ws rx) = Some (encoded ++ more, inc) ->
         is_open (ws rx) = true ->
         ReceiveTextHandler (ws rx) = true ->
         ReceiveBinaryHandler (ws rx) = true ->
         Z.of_nat (length (repeat 97 126))
         <= global_frame_max_size (g (world rx)) ->
         readFrame rx
         = (Ok tt,
            on_world
              (record (received OPCODE_BINARY (ID (ws rx)) (repeat 97 126)))
              (feed more inc rx)).
Proof.
  refine (frame_round_trip OPCODE_BINARY (repeat 97 126) (sample_state [])
            _ _ _ _); by_evaluation.
Defined.

(** ** Continuation frames *)

(** C3, as stated, fails: a Continuation frame with FIN set (first byte
    0x80) and three payload bytes is read to its end and [readFrame]
    returns nil; no handler is called and nothing is sent. *)
Lemma continuation_frame_is_accepted :
  Z.land 128 15 = OPCODE_CONTINUATION
  /\ readFrame (sample_state [[128; 3; 7; 8; 9]])
     = (Ok tt, feed [] [] (sample_state [[128; 3; 7; 8; 9]])).
Proof. split; vm_compute; reflexivity. Qed.

(** C3, amended. A Continuation frame on an open connection is refused
    when its FIN bit is clear (fragments are not supported).  With FIN
    set, RSV clear and a length within the maximum it is read to its end
    and dropped: [readFrame] returns nil, and neither the trace nor the
    bytes sent change. *)
Theorem continuation_frame_outcome s b1 rest inc
    (Hfill : fill (ws s) = Some (b1 :: rest, inc))
    (Hopen : is_open (ws s) = true)
    (Hop : Z.land b1 15 = OPCODE_CONTINUATION) :
  (Z.land b1 128 <> 128 ->
   readFrame s = (Err ErrFragmented, feed rest inc s))
  /\ (forall b2 ext key data more payload,
        rest = b2 :: ext ++ key ++ data ++ more ->
        fin_set b1 -> rsv_clear b1 ->
        length ext = ext_size (Z.land b2 127) ->
        0 <= decode_length (Z.land b2 127) ext
        <= global_frame_max_size (g (world s)) ->
        length key = key_size b2 ->
        length data = Z.to_nat (decode_length (Z.land b2 127) ext) ->
        unmasked b2 key data = Some payload ->
        readFrame s = (Ok tt, feed more inc s)).
Proof.
  split.
  - intros Hfin. eapply readFrame_fin_clear; eassumption.
  - intros b2 ext key data more payload -> Hfin Hrsv Hext Hlen Hkey Hdata
      Hpay.
    erewrite readFrame_buffered; try eassumption.
    + rewrite Hop. apply dispatch_continuation.
    + rewrite Hop. unfold known_opcode. cbn. tauto.
Qed.

Lemma continuation_frame_outcome_witness :
  let s := sample_state [[128; 3; 7; 8; 9]] in
  (Z.land 128 128 <> 128 ->
   readFrame s = (Err ErrFragmented, feed [3; 7; 8; 9] [] s))
  /\ (forall b2 ext key data more payload,
        [3; 7; 8; 9] = b2 :: ext ++ key ++ data ++ more ->
        fin_set 128 -> rsv_clear 128 ->
        length ext = ext_size (Z.land b2 127) ->
        0 <= decode_length (Z.land b2 127) ext
        <= global_frame_max_size (g (world s)) ->
        length key = key_size b2 ->
        length data = Z.to_nat (decode_length (Z.land b2 127) ext) ->
        unmasked b2 key data = Some payload ->
        readFrame s = (Ok tt, feed more [] s)).
Proof.
  intros s.
  refine (continuation_frame_outcome s 128 [3; 7; 8; 9] [] _ _ _);
    by_evaluation.
Defined.

(** ** Teardown *)

Lemma bind_modify {S B} (f : S -> S) (k : unit -> M S B) s :
  bind (modify f) k s = k tt (f s).
Proof. reflexivity. Qed.

Lemma bind_emit {B} e (k : unit -> M State B) s :
  bind (emit e) k s = k tt (on_world (record e) s).
Proof. reflexivity. Qed.

(** A frame sent with its error dropped: the call returns, and touches
    nothing but the write buffer and the bytes sent. *)
Lemma sendFrame_ignored opcode data s :
  opcode <= 15 ->
  exists rw' snt,
    ignore_error (sendFrame opcode [] data) s
    = (Ok tt,
       on_ws (fun w =>
                set_conn (fun c => {| incoming := incoming c; sent := snt;
                                      up := up c; closed := closed c |})
                  (set_rw (fun r => {| rbuf := rbuf r; wbuf := rw' |}) w)) s).
Proof.
  intros Hop. unfold ignore_error. rewrite sendFrame_unmasked by exact Hop.
  match goal with |- context [Flush ?t] => destruct (writable t) eqn:Hw end.
  - rewrite Flush_writable by exact Hw. eexists _, _. reflexivity.
  - rewrite Flush_down by exact Hw.
    exists (wbuf (rw (ws s))
            ++ frame_header opcode [] (Z.of_nat (length data)) ++ data),
      (sent (conn (ws s))).
    destruct s as [[id [rb wb] [i st u cl] pr ex k op hb ht hc] wd].
    reflexivity.
Qed.

(** On a connection that is not open [closeWebSocket] does nothing. *)
Lemma closeWebSocket_closed data s :
  is_open (ws s) = false -> closeWebSocket data s = (Ok tt, s).
Proof. intros H. unfold closeWebSocket. now rewrite bind_gets, H. Qed.

(** The teardown of an open connection. *)
Lemma closeWebSocket_open data s :
  is_open (ws s) = true ->
  exists s1,
    closeWebSocket data s = (Ok tt, s1)
    /\ log (world s1)
       = log (world s)
         ++ [EvDelete (ID (ws s)); EvConnClose (ID (ws s)); EvCountAdd (-1)]
         ++ (if ClosedHandler (ws s) then [EvClosed (ID (ws s))] else [])
    /\ global_websockets (g (world s1))
       = delete (ID (ws s)) (global_websockets (g (world s)))
    /\ global_websocket_count (g (world s1))
       = wrap32 (global_websocket_count (g (world s)) + -1)
    /\ is_open (ws s1) = false
    /\ closed (conn (ws s1)) = true
    /\ global_max_websockets (g (world s1)) = global_max_websockets (g (world s)).
Proof.
  intros Hopen.
  assert (Hrun : exists rw' snt,
    closeWebSocket data s
    = (let id := ID (ws s) in
       let s2 :=
         on_g (fun gl => set_count (wrap32 (global_websocket_count gl + -1)) gl)
           (on_ws (set_conn (fun c => {| incoming := incoming c;
                                         sent := sent c; up := up c;
                                         closed := true |}))
              (on_world (record (EvConnClose id))
                 (on_ws (fun w =>
                    set_conn (fun c => {| incoming := incoming c; sent := snt;
                                          up := up c; closed := closed c |})
                      (set_rw (fun r => {| rbuf := rbuf r; wbuf := rw' |}) w))
                    (on_world (record (EvDelete id))
                       (on_g (set_websockets (delete id))
                          (on_ws (set_is_open false) s)))))) in
       let s3 := on_world (record (EvCountAdd (-1))) s2 in
       if ClosedHandler (ws s)
       then (Ok tt, on_world (record (EvClosed id)) s3)
       else (Ok tt, s3))).
  { unfold closeWebSocket.
    rewrite bind_gets, Hopen, bind_gets, !bind_modify, bind_emit.
    match goal with
    | |- context [bind (ignore_error (sendFrame _ _ _)) _ ?t] =>
        destruct (sendFrame_ignored OPCODE_CLOSE data t) as (rw' & snt & Hs);
        [discriminate|]
    end.
    exists rw', snt.
    erewrite bind_Ok by exact Hs. clear Hs.
    destruct s as [[id [rb wb] [i st u cl] pr ex k op hb ht hc] [gl lg]].
    destruct hc; reflexivity. }
  destruct Hrun as (rw' & snt & ->).
  destruct s as [[id [rb wb] [i st u cl] pr ex k op hb ht hc] [gl lg]].
  destruct hc; eexists; (split; [reflexivity|]); cbn;
    rewrite <- ?app_assoc; repeat split.
Qed.

(** C5. Closing an open connection twice tears it down once: the first
    [closeWebSocket] removes the connection from the registry, closes
    the stream, decrements the counter and calls the Closed handler if
    there is one, each exactly once; the second call changes nothing
    and calls nothing. *)
Theorem closeWebSocket_twice s data1 data2
    (Hopen : is_open (ws s) = true) :
  exists s1,
    closeWebSocket data1 s = (Ok tt, s1)
    /\ log (world s1)
       = log (world s)
         ++ [EvDelete (ID (ws s)); EvConnClose (ID (ws s)); EvCountAdd (-1)]
         ++ (if ClosedHandler (ws s) then [EvClosed (ID (ws s))] else [])
    /\ global_websockets (g (world s1))
       = delete (ID (ws s)) (global_websockets (g (world s)))
    /\ global_websocket_count (g (world s1))
       = wrap32 (global_websocket_count (g (world s)) + -1)
    /\ is_open (ws s1) = false
    /\ closed (conn (ws s1)) = true
    /\ closeWebSocket data2 s1 = (Ok tt, s1).
Proof.
  destruct (closeWebSocket_open data1 s Hopen)
    as (s1 & Hrun & Hlog & Hreg & Hcount & Hclosed & Hconn & _).
  exists s1. repeat (split; [assumption|]).
  apply closeWebSocket_closed, Hclosed.
Qed.

Lemma closeWebSocket_twice_witness :
  let s := sample_state [] in
  exists s1,
    closeWebSocket [3; 232] s = (Ok tt, s1)
    /\ log (world s1)
       = log (world s)
         ++ [EvDelete (ID (ws s)); EvConnClose (ID (ws s)); EvCountAdd (-1)]
         ++ (if ClosedHandler (ws s) then [EvClosed (ID (ws s))] else [])
    /\ global_websockets (g (world s1))
       = delete (ID (ws s)) (global_websockets (g (world s)))
    /\ global_websocket_count (g (world s1))
       = wrap32 (global_websocket_count (g (world s)) + -1)
    /\ is_open (ws s1) = false
    /\ closed (conn (ws s1)) = true
    /\ closeWebSocket [3; 232] s1 = (Ok tt, s1).
Proof.
  intros s.
  refine (closeWebSocket_twice s [3; 232] [3; 232] _). reflexivity.
Defined.

(** ** The admission counter *)

Lemma wrap32_small z : - 2147483648 <= z < 2147483648 -> wrap32 z = z.
Proof.
  intros H. unfold wrap32, wrap_signed.
  change (2 ^ (32 - 1)) with 2147483648. change (2 ^ 32) with 4294967296.
  rewrite Z.mod_small; lia.
Qed.

Lemma holds_slot_range t : 0 <= holds_slot t <= 1.
Proof. destruct t as [|[| |[|]]]; cbn; lia. Qed.

Lemma slots_held_nonneg ts : 0 <= slots_held ts.
Proof.
  induction ts as [|t ts IH]; cbn [slots_held]; [lia|].
  pose proof (holds_slot_range t). lia.
Qed.

Lemma slots_held_insert ts : forall i old new,
  ts !! i = Some old ->
  slots_held (<[i := new]> ts) = slots_held ts - holds_slot old + holds_slot new.
Proof.
  induction ts as [|t ts IH]; intros [|i] old new Hi; try discriminate.
  - injection Hi as ->. cbn [slots_held]. cbn. lia.
  - cbn in Hi. cbn [slots_held]. change (<[S i:=new]> (t :: ts))
      with (t :: <[i:=new]> ts). cbn [slots_held].
    rewrite (IH i old new Hi). lia.
Qed.

Lemma slots_held_replicate n : slots_held (replicate n Idle) = 0.
Proof. induction n as [|n IH]; cbn; [reflexivity|exact IH]. Qed.

Section Pool.

Variable max : Z.
Hypothesis max_range : 0 <= max < 2147483648.

Lemma pool_invariant_initial n : pool_invariant max (initial_pool n).
Proof.
  unfold pool_invariant, initial_pool. cbn [counter goroutines].
  rewrite slots_held_replicate. repeat split; try lia.
  intros i c Hi. apply lookup_replicate in Hi as [Hi _]. discriminate.
Qed.

Lemma lookup_insert_AtCAS (ts : list Goroutine) i j new c :
  <[i := new]> ts !! j = Some (Running (AtCAS c)) ->
  new = Running (AtCAS c) \/ ts !! j = Some (Running (AtCAS c)).
Proof.
  intros H. destruct (decide (i = j)) as [->|Hne].
  - destruct (decide (j < length ts)%nat) as [Hlt|Hge].
    + rewrite list_lookup_insert_eq in H by exact Hlt. left. congruence.
    + rewrite list_insert_ge in H by lia. now right.
  - rewrite list_lookup_insert_ne in H by exact Hne. now right.
Qed.

Lemma pool_step_invariant p q :
  pool_invariant max p -> pool_step max p q -> pool_invariant max q.
Proof.
  intros (Hheld & Hrange & Hcas) Hstep.
  destruct Hstep as [p i Hi|p i pc pc' c' Hi Hinc|p i Hi|p i Hi];
    unfold pool_invariant; cbn [counter goroutines].
  - rewrite (slots_held_insert _ _ _ _ Hi). cbn [holds_slot].
    repeat split; try lia.
    intros j c Hj. apply lookup_insert_AtCAS in Hj as [Hj|Hj];
      [discriminate|eauto].
  - rewrite (slots_held_insert _ _ _ _ Hi).
    destruct pc as [|c|b]; cbn [inc_step] in Hinc.
    + destruct (Z.leb_spec max (counter p)); injection Hinc as <- <-;
        cbn [holds_slot]; (repeat split; try lia);
        intros j c Hj; apply lookup_insert_AtCAS in Hj as [Hj|Hj]; eauto;
        try discriminate.
      injection Hj as <-. lia.
    + pose proof (Hcas i c Hi) as Hc.
      destruct (Z.eqb_spec (counter p) c) as [Heq|Hne];
        injection Hinc as <- <-; cbn [holds_slot].
      * rewrite wrap32_small by lia. repeat split; try lia.
        intros j c0 Hj. apply lookup_insert_AtCAS in Hj as [Hj|Hj];
          [discriminate|eauto].
      * repeat split; try lia.
        intros j c0 Hj. apply lookup_insert_AtCAS in Hj as [Hj|Hj];
          [discriminate|eauto].
    + injection Hinc as <- <-. repeat split; try lia.
      intros j c0 Hj. apply lookup_insert_AtCAS in Hj as [Hj|Hj];
        [discriminate|eauto].
  - rewrite (slots_held_insert _ _ _ _ Hi). cbn [holds_slot].
    repeat split; try lia.
    intros j c Hj. apply lookup_insert_AtCAS in Hj as [Hj|Hj];
      [discriminate|eauto].
  - rewrite (slots_held_insert _ _ _ _ Hi). cbn [holds_slot].
    assert (1 <= slots_held (goroutines p)).
    { pose proof (slots_held_insert _ i _ Idle Hi) as Hins.
      pose proof (slots_held_nonneg (<[i:=Idle]> (goroutines p))).
      cbn [holds_slot] in Hins. lia. }
    rewrite wrap32_small by lia. repeat split; try lia.
    intros j c Hj. apply lookup_insert_AtCAS in Hj as [Hj|Hj];
      [discriminate|eauto].
Qed.

Lemma pool_reachable_invariant n p :
  rtc (pool_step max) (initial_pool n) p -> pool_invariant max p.
Proof.
  intros Hsteps.
  refine (rtc_ind_r (R := pool_step max) (pool_invariant max) (initial_pool n)
            (pool_invariant_initial n) _ p Hsteps).
  intros q r _ Hstep Hq. eapply pool_step_invariant; eassumption.
Qed.

End Pool.

(** The counter at or above the maximum: the call returns false and
    leaves everything as it is. *)
Lemma incrementGlobalWebsocketCount_full wd :
  global_max_websockets (g wd) <= global_websocket_count (g wd) ->
  incrementGlobalWebsocketCount wd = (Ok false, wd).
Proof.
  intros H. unfold incrementGlobalWebsocketCount. cbn [inc_run inc_step].
  replace (_ <=? _) with true by (symmetry; apply Z.leb_le; lia).
  reflexivity.
Qed.

(** The counter below the maximum: alone, the call advances it by one
    at its first attempt and returns true. *)
Lemma incrementGlobalWebsocketCount_free wd :
  global_websocket_count (g wd) < global_max_websockets (g wd) ->
  incrementGlobalWebsocketCount wd
  = (Ok true,
     record (EvCountCAS (global_websocket_count (g wd))
               (wrap32 (global_websocket_count (g wd) + 1)))
       (map_g (set_count (wrap32 (global_websocket_count (g wd) + 1))) wd)).
Proof.
  intros H. unfold incrementGlobalWebsocketCount. cbn [inc_run inc_step].
  replace (_ <=? _) with false by (symmetry; apply Z.leb_gt; lia).
  cbn [inc_run inc_step]. rewrite Z.eqb_refl. reflexivity.
Qed.

(** C6. The admission counter never exceeds the maximum: in every
    interleaving of goroutines that run the load-compare-swap loop and
    of closes of admitted connections, the counter equals the number of
    slots held and stays at most the maximum.  The operation returns
    false when the count is at or above the maximum and otherwise
    advances it by one.  With the count at the maximum an attempt is
    refused; once an open connection is closed the next attempt is
    admitted and the count is back at the maximum. *)
Theorem admission_counter_bound max (Hmax : 0 <= max < 2147483648) :
  (forall n p,
      rtc (pool_step max) (initial_pool n) p ->
      counter p = slots_held (goroutines p) /\ counter p <= max)
  /\ (forall wd,
        global_max_websockets (g wd) = max ->
        max <= global_websocket_count (g wd) ->
        incrementGlobalWebsocketCount wd = (Ok false, wd))
  /\ (forall wd,
        global_max_websockets (g wd) = max ->
        0 <= global_websocket_count (g wd) < max ->
        exists wd',
          incrementGlobalWebsocketCount wd = (Ok true, wd')
          /\ global_websocket_count (g wd') = global_websocket_count (g wd) + 1)
  /\ (forall s data,
        global_max_websockets (g (world s)) = max ->
        global_websocket_count (g (world s)) = max ->
        is_open (ws s) = true ->
        incrementGlobalWebsocketCount (world s) = (Ok false, world s)
        /\ exists s1 wd',
             closeWebSocket data s = (Ok tt, s1)
             /\ incrementGlobalWebsocketCount (world s1) = (Ok true, wd')
             /\ global_websocket_count (g wd') = max).
Proof.
  split; [|split; [|split]].
  - intros n p Hsteps.
    destruct (pool_reachable_invariant max Hmax n p Hsteps) as (H1 & H2 & _).
    split; [exact H1|lia].
  - intros wd <- Hfull. apply incrementGlobalWebsocketCount_full, Hfull.
  - intros wd <- Hfree. eexists. split.
    + apply incrementGlobalWebsocketCount_free. lia.
    + cbn. apply wrap32_small. lia.
  - intros s data Hm Hc Hopen. split.
    + apply incrementGlobalWebsocketCount_full. lia.
    + destruct (closeWebSocket_open data s Hopen)
        as (s1 & Hrun & _ & _ & Hcount & _ & _ & Hmax1).
      rewrite Hc in Hcount. rewrite wrap32_small in Hcount by lia.
      eexists s1, _. split; [exact Hrun|]. split.
      * apply incrementGlobalWebsocketCount_free. lia.
      * cbn. rewrite Hcount. rewrite wrap32_small by lia. lia.
Qed.

Lemma admission_counter_bound_witness :
  (forall n p,
      rtc (pool_step 1000) (initial_pool n) p ->
      counter p = slots_held (goroutines p) /\ counter p <= 1000)
  /\ (forall wd,
        global_max_websockets (g wd) = 1000 ->
        1000 <= global_websocket_count (g wd) ->
        incrementGlobalWebsocketCount wd = (Ok false, wd))
  /\ (forall wd,
        global_max_websockets (g wd) = 1000 ->
        0 <= global_websocket_count (g wd) < 1000 ->
        exists wd',
          incrementGlobalWebsocketCount wd = (Ok true, wd')
          /\ global_websocket_count (g wd') = global_websocket_count (g wd) + 1)
  /\ (forall s data,
        global_max_websockets (g (world s)) = 1000 ->
        global_websocket_count (g (world s)) = 1000 ->
        is_open (ws s) = true ->
        incrementGlobalWebsocketCount (world s) = (Ok false, world s)
        /\ exists s1 wd',
             closeWebSocket data s = (Ok tt, s1)
             /\ incrementGlobalWebsocketCount (world s1) = (Ok true, wd')
             /\ global_websocket_count (g wd') = 1000).
Proof. apply (admission_counter_bound 1000). lia. Defined.

(** ** Where the code falls short *)

(** C7, the length check.  A frame whose 64-bit length field has its top
    bit set announces 2^63 bytes, far above the maximum of 1 MiB.
    [readFrame] assembles the field in an [int64], gets a negative
    length, which the comparison with the maximum lets through, and
    panics when it allocates the payload: no error is returned, and
    [readLoop], which recovers from nothing, does not close the
    connection. *)
Theorem huge_length_panics :
  let s := sample_state [huge_frame] in
  decode_length 127 [128; 0; 0; 0; 0; 0; 0; 0] = - 9223372036854775808
  /\ readFrame s = (Panic, feed [] [] s)
  /\ (forall fuel, readLoop (S fuel) s = (Panic, feed [] [] s))
  /\ is_open (ws (feed [] [] s)) = true
  /\ log (world (feed [] [] s)) = [].
Proof.
  intros s.
  assert (Hread : readFrame s = (Panic, feed [] [] s))
    by (vm_compute; reflexivity).
  split; [vm_compute; reflexivity|]. split; [exact Hread|].
  split; [|split; reflexivity].
  intros fuel. cbn [readLoop]. now rewrite Hread.
Qed.

(** C4, the handshake that cannot be written.  The request is valid, a
    slot is free and the hijack succeeds, but the peer is gone and the
    flush of the response fails: [Upgrade] returns the error after
    [makeWebSocket] has taken id 1, stored the connection in the
    registry and counted it, and nothing undoes that. *)
Theorem failed_handshake_stays_registered :
  let out := Upgrade (Hijackable dead_conn []) sample_request initial_world in
  fst out = Err ErrTransport
  /\ global_id_gen (g (snd out)) = 1
  /\ (exists w, global_websockets (g (snd out)) !! 1 = Some w
                /\ is_open w = true)
  /\ global_websocket_count (g (snd out)) = 1
  /\ log (snd out) = [EvCountCAS 0 1; EvStore 1].
Proof.
  intros out. repeat split; try (vm_compute; reflexivity).
  eexists. split; vm_compute; reflexivity.
Qed.

(** * Further properties of the codec *)

(** ** What [readFrame] refuses at the first byte *)

(** A first byte with FIN clear, with an RSV bit set, or with an opcode
    outside the six is refused with the matching error; the byte is the
    only one consumed, and neither the trace nor the bytes sent nor the
    variables of the package change. *)
Theorem malformed_first_byte_is_refused s b1 rest inc
    (Hfill : fill (ws s) = Some (b1 :: rest, inc))
    (Hopen : is_open (ws s) = true) :
  (Z.land b1 128 <> 128 ->
   readFrame s = (Err ErrFragmented, feed rest inc s))
  /\ (fin_set b1 ->
      Z.land b1 64 = 64 \/ Z.land b1 32 = 32 \/ Z.land b1 16 = 16 ->
      readFrame s = (Err ErrRSV, feed rest inc s))
  /\ (fin_set b1 -> rsv_clear b1 -> ~ known_opcode (Z.land b1 15) ->
      readFrame s = (Err (ErrOpcode (Z.land b1 15)), feed rest inc s)).
Proof.
  split; [|split].
  - intros Hfin. eapply readFrame_fin_clear; eassumption.
  - intros Hfin Hrsv. eapply readFrame_rsv_set; eassumption.
  - intros Hfin Hrsv Hop. eapply readFrame_unknown_opcode; eassumption.
Qed.

Lemma malformed_first_byte_is_refused_witness :
  let s := sample_state [[131; 5]] in
  (Z.land 131 128 <> 128 ->
   readFrame s = (Err ErrFragmented, feed [5] [] s))
  /\ (fin_set 131 ->
      Z.land 131 64 = 64 \/ Z.land 131 32 = 32 \/ Z.land 131 16 = 16 ->
      readFrame s = (Err ErrRSV, feed [5] [] s))
  /\ (fin_set 131 -> rsv_clear 131 -> ~ known_opcode (Z.land 131 15) ->
      readFrame s = (Err (ErrOpcode (Z.land 131 15)), feed [5] [] s)).
Proof.
  intros s.
  refine (malformed_first_byte_is_refused s 131 [5] [] _ _); by_evaluation.
Defined.

(** A frame whose decoded length is above the maximum is refused as
    soon as its length field is read: neither the mask key nor any
    payload byte is consumed, and no handler is called. *)
Theorem oversized_frame_is_refused s b1 b2 ext rest inc
    (Hfill : fill (ws s) = Some (b1 :: b2 :: ext ++ rest, inc))
    (Hopen : is_open (ws s) = true)
    (Hfin : fin_set b1) (Hrsv : rsv_clear b1)
    (Hop : known_opcode (Z.land b1 15))
    (Hext : length ext = ext_size (Z.land b2 127))
    (Hlen : global_frame_max_size (g (world s))
            < decode_length (Z.land b2 127) ext) :
  readFrame s
  = (Err (ErrTooLarge (decode_length (Z.land b2 127) ext)
            (global_frame_max_size (g (world s)))),
     feed rest inc s)
  /\ is_protocol_error
       (ErrTooLarge (decode_length (Z.land b2 127) ext)
          (global_frame_max_size (g (world s)))) = true
  /\ log (world (feed rest inc s)) = log (world s).
Proof.
  split; [|split; reflexivity].
  eapply readFrame_too_large; eassumption.
Qed.

(** 1 MiB + 1 announced on 64 bits. *)
Lemma oversized_frame_is_refused_witness :
  let s := sample_state [[130; 255; 0; 0; 0; 0; 0; 16; 0; 1; 1; 2; 3; 4]] in
  readFrame s
  = (Err (ErrTooLarge (decode_length (Z.land 255 127) [0; 0; 0; 0; 0; 16; 0; 1])
            (global_frame_max_size (g (world s)))),
     feed [1; 2; 3; 4] [] s)
  /\ is_protocol_error
       (ErrTooLarge (decode_length (Z.land 255 127) [0; 0; 0; 0; 0; 16; 0; 1])
          (global_frame_max_size (g (world s)))) = true
  /\ log (world (feed [1; 2; 3; 4] [] s)) = log (world s).
Proof.
  intros s.
  refine (oversized_frame_is_refused s 130 255 [0; 0; 0; 0; 0; 16; 0; 1]
            [1; 2; 3; 4] [] _ _ _ _ _ _ _); by_evaluation.
Defined.

(** Once the connection is not open, a byte that is still buffered is
    consumed and the frame read fails with "WebSocket is closed": no
    frame is dispatched after the teardown. *)
Theorem closed_connection_reads_nothing s b1 rest inc
    (Hfill : fill (ws s) = Some (b1 :: rest, inc))
    (Hclosed : is_open (ws s) = false) :
  readFrame s = (Err ErrClosed, feed rest inc s).
Proof.
  unfold readFrame.
  erewrite bind_Ok by (apply ReadByte_fill, Hfill).
  now rewrite bind_gets, is_open_feed, Hclosed.
Qed.

Lemma closed_connection_reads_nothing_witness :
  let s := on_ws (set_is_open false) (sample_state [[129; 1; 65]]) in
  readFrame s = (Err ErrClosed, feed [1; 65] [] s).
Proof.
  intros s.
  refine (closed_connection_reads_nothing s 129 [1; 65] [] _ _); by_evaluation.
Defined.

(** No bytes left and none to come: the frame read fails with the error
    of the stream, whatever the state of the connection. *)
Theorem exhausted_stream_is_an_error s
    (Hfill : fill (ws s) = None) :
  readFrame s = (Err ErrTransport, s).
Proof.
  unfold readFrame, bind at 1, ReadByte. now rewrite Hfill.
Qed.

Lemma exhausted_stream_is_an_error_witness :
  readFrame (sample_state [[]; []]) = (Err ErrTransport, sample_state [[]; []]).
Proof.
  refine (exhausted_stream_is_an_error (sample_state [[]; []]) _).
  reflexivity.
Defined.

(** ** Teardown on the wire *)

(** The teardown of an open connection whose transport is up: beside
    what [closeWebSocket_open] says, the peer is sent one Close frame
    with [data] as its body. *)
Lemma closeWebSocket_writable data s :
  is_open (ws s) = true -> writable s = true -> wbuf (rw (ws s)) = [] ->
  exists s1,
    closeWebSocket data s = (Ok tt, s1)
    /\ sent (conn (ws s1))
       = sent (conn (ws s))
         ++ tier_header OPCODE_CLOSE (Z.of_nat (length data)) ++ data
    /\ log (world s1)
       = log (world s)
         ++ [EvDelete (ID (ws s)); EvConnClose (ID (ws s)); EvCountAdd (-1)]
         ++ (if ClosedHandler (ws s) then [EvClosed (ID (ws s))] else [])
    /\ global_websockets (g (world s1))
       = delete (ID (ws s)) (global_websockets (g (world s)))
    /\ global_websocket_count (g (world s1))
       = wrap32 (global_websocket_count (g (world s)) + -1)
    /\ is_open (ws s1) = false
    /\ closed (conn (ws s1)) = true.
Proof.
  intros Hopen Hup Hbuf.
  assert (Hrun :
    closeWebSocket data s
    = (let id := ID (ws s) in
       let s2 :=
         on_g (fun gl => set_count (wrap32 (global_websocket_count gl + -1)) gl)
           (on_ws (set_conn (fun c => {| incoming := incoming c;
                                         sent := sent c; up := up c;
                                         closed := true |}))
              (on_world (record (EvConnClose id))
                 (transmit
                    (frame_header OPCODE_CLOSE [] (Z.of_nat (length data))
                     ++ data)
                    (on_world (record (EvDelete id))
                       (on_g (set_websockets (delete id))
                          (on_ws (set_is_open false) s)))))) in
       let s3 := on_world (record (EvCountAdd (-1))) s2 in
       if ClosedHandler (ws s)
       then (Ok tt, on_world (record (EvClosed id)) s3)
       else (Ok tt, s3))).
  { unfold closeWebSocket.
    rewrite bind_gets, Hopen, bind_gets, !bind_modify, bind_emit.
    erewrite bind_Ok.
    2:{ apply ignore_error_Ok, sendFrame_sent;
          [discriminate|exact Hup|exact Hbuf]. }
    destruct s as [[id [rb wb] [i st u cl] pr ex k op hb ht hc] [gl lg]].
    destruct hc; reflexivity. }
  rewrite Hrun, frame_header_tiers by lia.
  destruct s as [[id [rb wb] [i st u cl] pr ex k op hb ht hc] [gl lg]].
  destruct hc; eexists; (split; [reflexivity|]); cbn;
    rewrite <- ?app_assoc; repeat split.
Qed.

Lemma readLoop_Err fuel s e s' :
  readFrame s = (Err e, s') ->
  readLoop (S fuel) s
  = closeWebSocket (makeStatusCodeBytes ERROR_CODE_NORMAL_CLOSURE) s'.
Proof. intros H. cbn [readLoop]. now rewrite H. Qed.

Lemma readLoop_Ok fuel s s' :
  readFrame s = (Ok tt, s') -> readLoop (S fuel) s = readLoop fuel s'.
Proof. intros H. cbn [readLoop]. now rewrite H. Qed.

(** Whatever error a frame read ends in, [readLoop] answers it the same
    way: the peer is sent one Close frame with status 1000 (bytes 0x88
    0x02 0x03 0xE8), the stream is closed, the connection leaves the
    registry, the counter goes down by one, the Closed handler is called
    once if there is one, and the loop returns. *)
Theorem readLoop_closes_with_1000 fuel s e s'
    (Hread : readFrame s = (Err e, s'))
    (Hopen : is_open (ws s') = true)
    (Hup : writable s' = true)
    (Hbuf : wbuf (rw (ws s')) = []) :
  exists s1,
    readLoop (S fuel) s = (Ok tt, s1)
    /\ sent (conn (ws s1)) = sent (conn (ws s')) ++ [136; 2; 3; 232]
    /\ log (world s1)
       = log (world s')
         ++ [EvDelete (ID (ws s')); EvConnClose (ID (ws s'));
             EvCountAdd (-1)]
         ++ (if ClosedHandler (ws s') then [EvClosed (ID (ws s'))] else [])
    /\ global_websockets (g (world s1))
       = delete (ID (ws s')) (global_websockets (g (world s')))
    /\ global_websocket_count (g (world s1))
       = wrap32 (global_websocket_count (g (world s')) + -1)
    /\ is_open (ws s1) = false
    /\ closed (conn (ws s1)) = true.
Proof.
  rewrite (readLoop_Err fuel s e s' Hread).
  exact (closeWebSocket_writable
           (makeStatusCodeBytes ERROR_CODE_NORMAL_CLOSURE) s' Hopen Hup Hbuf).
Qed.

(** A frame with a reserved opcode, then the teardown. *)
Lemma readLoop_closes_with_1000_witness :
  let s := sample_state [[131; 5]] in
  let s' := feed [5] [] s in
  exists s1,
    readLoop 1 s = (Ok tt, s1)
    /\ sent (conn (ws s1)) = sent (conn (ws s')) ++ [136; 2; 3; 232]
    /\ log (world s1)
       = log (world s')
         ++ [EvDelete (ID (ws s')); EvConnClose (ID (ws s'));
             EvCountAdd (-1)]
         ++ (if ClosedHandler (ws s') then [EvClosed (ID (ws s'))] else [])
    /\ global_websockets (g (world s1))
       = delete (ID (ws s')) (global_websockets (g (world s')))
    /\ global_websocket_count (g (world s1))
       = wrap32 (global_websocket_count (g (world s')) + -1)
    /\ is_open (ws s1) = false
    /\ closed (conn (ws s1)) = true.
Proof.
  intros s s'.
  refine (readLoop_closes_with_1000 0 s (ErrOpcode 3) s' _ _ _ _);
    by_evaluation.
Defined.

Lemma dispatch_close data s :
  dispatch OPCODE_CLOSE data s = closeWebSocket data s.
Proof. reflexivity. Qed.

(** A frame read on a connection that is not open fails, and changes
    nothing but the read position. *)
Lemma readFrame_not_open s :
  is_open (ws s) = false ->
  exists e buf inc,
    readFrame s = (Err e, feed buf inc s) \/ readFrame s = (Err e, s).
Proof.
  intros Hclosed. destruct (fill (ws s)) as [[[|b buf] inc]|] eqn:Hfill.
  - exists ErrTransport, [], []. right.
    unfold readFrame, bind at 1, ReadByte. now rewrite Hfill.
  - exists ErrClosed, buf, inc. left.
    unfold readFrame.
    erewrite bind_Ok by (apply ReadByte_fill, Hfill).
    now rewrite bind_gets, is_open_feed, Hclosed.
  - exists ErrTransport, [], []. right.
    unfold readFrame, bind at 1, ReadByte. now rewrite Hfill.
Qed.

(** A Close frame held by the read buffer ends the loop with a single
    teardown: the frame read echoes the payload in a Close frame and
    tears the connection down; the next read fails on the connection
    that is no longer open, and the close it triggers does nothing.
    Whatever follows the Close frame is never dispatched. *)
Theorem close_frame_ends_the_loop
    fuel s b1 b2 ext key data more inc payload
    (Hfill : fill (ws s) = Some (b1 :: b2 :: ext ++ key ++ data ++ more, inc))
    (Hopen : is_open (ws s) = true)
    (Hup : writable s = true)
    (Hbuf : wbuf (rw (ws s)) = [])
    (Hfin : fin_set b1) (Hrsv : rsv_clear b1)
    (Hop : Z.land b1 15 = OPCODE_CLOSE)
    (Hext : length ext = ext_size (Z.land b2 127))
    (Hlen : 0 <= decode_length (Z.land b2 127) ext
            <= global_frame_max_size (g (world s)))
    (Hkey : length key = key_size b2)
    (Hdata : length data = Z.to_nat (decode_length (Z.land b2 127) ext))
    (Hpay : unmasked b2 key data = Some payload) :
  exists s2,
    readLoop (S (S fuel)) s = (Ok tt, s2)
    /\ sent (conn (ws s2))
       = sent (conn (ws s))
         ++ tier_header OPCODE_CLOSE (Z.of_nat (length payload)) ++ payload
    /\ log (world s2)
       = log (world s)
         ++ [EvDelete (ID (ws s)); EvConnClose (ID (ws s)); EvCountAdd (-1)]
         ++ (if ClosedHandler (ws s) then [EvClosed (ID (ws s))] else [])
    /\ global_websocket_count (g (world s2))
       = wrap32 (global_websocket_count (g (world s)) + -1)
    /\ is_open (ws s2) = false.
Proof.
  assert (Hframe : readFrame s = closeWebSocket payload (feed more inc s)).
  { erewrite readFrame_buffered; try eassumption.
    - now rewrite Hop, dispatch_close.
    - rewrite Hop. unfold known_opcode. cbn. tauto. }
  destruct (closeWebSocket_writable payload (feed more inc s))
    as (s1 & Hrun & Hsent & Hlog & _ & Hcount & Hclosed & _);
    [exact Hopen|exact Hup|exact Hbuf|].
  rewrite Hrun in Hframe. rewrite (readLoop_Ok _ _ _ Hframe).
  destruct (readFrame_not_open s1 Hclosed) as (e & buf & inc' & [Hr|Hr]);
    rewrite (readLoop_Err _ _ _ _ Hr).
  - exists (feed buf inc' s1). split.
    + apply closeWebSocket_closed. exact Hclosed.
    + change (sent (conn (ws (feed buf inc' s1)))) with (sent (conn (ws s1))).
      change (world (feed buf inc' s1)) with (world s1).
      change (is_open (ws (feed buf inc' s1))) with (is_open (ws s1)).
      repeat split; assumption.
  - exists s1. split.
    + apply closeWebSocket_closed. exact Hclosed.
    + repeat split; assumption.
Qed.

(** A masked Close frame with status 1000, followed by a Text frame that
    is never looked at. *)
Lemma close_frame_ends_the_loop_witness :
  let s := sample_state [[136; 130; 9; 9; 9; 9; 10; 225; 129; 1; 65]] in
  exists s2,
    readLoop 2 s = (Ok tt, s2)
    /\ sent (conn (ws s2))
       = sent (conn (ws s))
         ++ tier_header OPCODE_CLOSE (Z.of_nat (length [3; 232])) ++ [3; 232]
    /\ log (world s2)
       = log (world s)
         ++ [EvDelete (ID (ws s)); EvConnClose (ID (ws s)); EvCountAdd (-1)]
         ++ (if ClosedHandler (ws s) then [EvClosed (ID (ws s))] else [])
    /\ global_websocket_count (g (world s2))
       = wrap32 (global_websocket_count (g (world s)) + -1)
    /\ is_open (ws s2) = false.
Proof.
  intros s.
  refine (close_frame_ends_the_loop 0 s 136 130 [] [9; 9; 9; 9] [10; 225]
            [129; 1; 65] [] [3; 232] _ _ _ _ _ _ _ _ _ _ _ _); by_evaluation.
Defined.

(** * Further properties of the handshake *)

(** The admission step of [makeWebSocket], by the state of the counter. *)
Lemma incrementGlobalWebsocketCount_cases wd :
  (global_max_websockets (g wd) <= global_websocket_count (g wd)
   /\ incrementGlobalWebsocketCount wd = (Ok false, wd))
  \/ (global_websocket_count (g wd) < global_max_websockets (g wd)
      /\ incrementGlobalWebsocketCount wd
         = (Ok true,
            record (EvCountCAS (global_websocket_count (g wd))
                      (wrap32 (global_websocket_count (g wd) + 1)))
              (map_g (set_count (wrap32 (global_websocket_count (g wd) + 1)))
                 wd))).
Proof.
  destruct (Z.le_gt_cases (global_max_websockets (g wd))
              (global_websocket_count (g wd))) as [Hfull|Hfree].
  - left. split; [exact Hfull|].
    apply incrementGlobalWebsocketCount_full, Hfull.
  - right. split; [exact Hfree|].
    apply incrementGlobalWebsocketCount_free, Hfree.
Qed.

(** Every error of [makeWebSocket] but that of [Hijack] leaves the
    package as it was: no id is taken, the registry, the counter and
    the trace are untouched.  A failed [Hijack] comes after the counter
    was advanced, and leaves it advanced: that slot is never released.
    In no case is an id taken or the registry touched. *)
Theorem makeWebSocket_error_effects w r wd e wd'
    (Hfail : makeWebSocket w r wd = (Err e, wd')) :
  global_id_gen (g wd') = global_id_gen (g wd)
  /\ global_websockets (g wd') = global_websockets (g wd)
  /\ (e <> ErrHijack -> wd' = wd)
  /\ (e = ErrHijack ->
      w = HijackFails
      /\ global_websocket_count (g wd') =
           wrap32 (global_websocket_count (g wd) + 1)).
Proof.
  revert Hfail.
  unfold makeWebSocket, validateProtocolHeader, validateExtensionsHeader.
  repeat match goal with
         | |- context [if ?b then fail ?x else _] =>
             destruct b;
             [unfold fail, bind; intros [= <- <-];
              repeat split; (reflexivity || discriminate || congruence)|]
         end.
  unfold bind at 1 2 3. unfold ret at 1 2.
  destruct (incrementGlobalWebsocketCount_cases wd) as [[_ ->]|[_ ->]].
  - cbn [negb]. unfold fail. intros [= <- <-].
    repeat split; (reflexivity || discriminate || congruence).
  - cbn [negb]. destruct w as [c buffered| |].
    + discriminate.
    + unfold fail. intros [= <- <-]. repeat split; try reflexivity.
      congruence.
    + discriminate.
Qed.

Lemma makeWebSocket_error_effects_witness :
  let out := makeWebSocket HijackFails sample_request initial_world in
  global_id_gen (g (snd out)) = global_id_gen (g initial_world)
  /\ global_websockets (g (snd out)) = global_websockets (g initial_world)
  /\ (ErrHijack <> ErrHijack -> snd out = initial_world)
  /\ (ErrHijack = ErrHijack ->
      HijackFails = HijackFails
      /\ global_websocket_count (g (snd out)) =
           wrap32 (global_websocket_count (g initial_world) + 1)).
Proof.
  intros out.
  refine (makeWebSocket_error_effects HijackFails sample_request
            initial_world ErrHijack (snd out) _).
  vm_compute. reflexivity.
Defined.

(** What [makeWebSocket] has checked and done when it succeeds. *)
Lemma makeWebSocket_Ok_inv w r wd made wd' :
  makeWebSocket w r wd = (Ok made, wd') ->
  (Method r = "GET"%string
   /\ ProtoAtLeast r 1 1 = true
   /\ Header r "Upgrade" = "websocket"%string
   /\ Header r "Connection" = "Upgrade"%string
   /\ Header r "Sec-Fetch-Mode" = "websocket"%string
   /\ Contains (Header r "Sec-WebSocket-Version") "13" = true
   /\ Header r "Sec-WebSocket-Protocol" = EmptyString
   /\ Header r "Origin" <> EmptyString
   /\ Header r "Sec-WebSocket-Key" <> EmptyString
   /\ global_websocket_count (g wd) < global_max_websockets (g wd))
  /\ wd'
     = (let c := global_websocket_count (g wd) in
        let id := wrap64 (global_id_gen (g wd) + 1) in
        record (EvStore id)
          (map_g (set_websockets (insert id made))
             (map_g (set_id_gen id)
                (record (EvCountCAS c (wrap32 (c + 1)))
                   (map_g (set_count (wrap32 (c + 1))) wd))))).
Proof.
  unfold makeWebSocket, validateProtocolHeader, validateExtensionsHeader.
  destruct (String.eqb_spec (Method r) "GET") as [Hm|]; [|discriminate].
  destruct (ProtoAtLeast r 1 1) eqn:Hp; [|discriminate].
  destruct (String.eqb_spec (Header r "Upgrade") "websocket") as [Hu|];
    [|discriminate].
  destruct (String.eqb_spec (Header r "Connection") "Upgrade") as [Hc|];
    [|discriminate].
  destruct (String.eqb_spec (Header r "Sec-Fetch-Mode") "websocket") as [Hf|];
    [|discriminate].
  destruct (Contains (Header r "Sec-WebSocket-Version") "13") eqn:Hv;
    [|discriminate].
  cbn [negb].
  destruct (Header r "Sec-WebSocket-Protocol") as [|ch pr] eqn:Hpr;
    [|discriminate].
  cbn [String.length Nat.ltb Nat.leb]. unfold bind at 1 2. unfold ret at 1 2.
  destruct (String.eqb_spec (Header r "Origin") EmptyString) as [|Ho];
    [discriminate|].
  destruct (String.eqb_spec (Header r "Sec-WebSocket-Key") EmptyString)
    as [|Hk]; [discriminate|].
  unfold bind at 1.
  destruct (incrementGlobalWebsocketCount_cases wd) as [[_ ->]|[Hfree ->]];
    [discriminate|].
  cbn [negb]. destruct w as [c buffered| |]; try discriminate.
  intros [= <- <-]. split; [repeat split; assumption|reflexivity].
Qed.

(** [Upgrade] succeeds exactly when [makeWebSocket] does and the
    response can be flushed; it changes the package as [makeWebSocket]
    did. *)
Lemma Upgrade_Ok_inv w r wd made wd' :
  Upgrade w r wd = (Ok made, wd') ->
  exists m,
    makeWebSocket w r wd = (Ok m, wd')
    /\ up (conn m) && negb (closed (conn m)) = true
    /\ ID made = ID m /\ is_open made = is_open m
    /\ rbuf (rw made) = rbuf (rw m)
    /\ ReceiveTextHandler made = false /\ ReceiveBinaryHandler made = false
    /\ ClosedHandler made = false.
Proof.
  intros Hok. unfold Upgrade in Hok. unfold bind at 1 in Hok.
  destruct (makeWebSocket w r wd) as [[m| | |] wd1] eqn:Hmake;
    try discriminate.
  pose proof (makeWebSocket_Ok _ _ _ _ _ Hmake) as (c & buffered & -> & Hm).
  rewrite sendWebSocketHandshakeResponse_plain in Hok by (subst m; reflexivity).
  match type of Hok with
  | context [Flush ?s] => destruct (writable s) eqn:Hw
  end.
  - rewrite (Flush_writable _ Hw) in Hok. injection Hok as <- <-.
    exists m. split; [reflexivity|]. split; [exact Hw|].
    subst m. repeat split.
  - rewrite (Flush_down _ Hw) in Hok. discriminate.
Qed.

(** A request is upgraded only if it passed every check of
    [makeWebSocket]: GET, HTTP/1.1 or later, the Upgrade, Connection and
    Sec-Fetch-Mode headers at their exact values, a version header that
    contains 13, no subprotocol asked for, an Origin and a key, and a
    free slot. *)
Theorem upgraded_request_was_valid w r wd made wd'
    (Hok : Upgrade w r wd = (Ok made, wd')) :
  Method r = "GET"%string
  /\ ProtoAtLeast r 1 1 = true
  /\ Header r "Upgrade" = "websocket"%string
  /\ Header r "Connection" = "Upgrade"%string
  /\ Header r "Sec-Fetch-Mode" = "websocket"%string
  /\ Contains (Header r "Sec-WebSocket-Version") "13" = true
  /\ Header r "Sec-WebSocket-Protocol" = EmptyString
  /\ Header r "Origin" <> EmptyString
  /\ Header r "Sec-WebSocket-Key" <> EmptyString
  /\ global_websocket_count (g wd) < global_max_websockets (g wd).
Proof.
  apply Upgrade_Ok_inv in Hok as (m & Hmake & _).
  apply makeWebSocket_Ok_inv in Hmake as [Hvalid _]. exact Hvalid.
Qed.

(** A successful [Upgrade] takes the next id, stores the connection
    under it, and advances the counter by one; the connection returned
    is open, carries that id and has no handler yet. *)
Theorem Upgrade_registers_the_connection w r wd made wd'
    (Hok : Upgrade w r wd = (Ok made, wd')) :
  ID made = wrap64 (global_id_gen (g wd) + 1)
  /\ global_id_gen (g wd') = ID made
  /\ (exists stored,
         global_websockets (g wd') !! ID made = Some stored
         /\ ID stored = ID made /\ is_open stored = true)
  /\ (forall id, id <> ID made ->
                 global_websockets (g wd') !! id
                 = global_websockets (g wd) !! id)
  /\ global_websocket_count (g wd')
     = wrap32 (global_websocket_count (g wd) + 1)
  /\ log wd'
     = log wd
       ++ [EvCountCAS (global_websocket_count (g wd))
             (wrap32 (global_websocket_count (g wd) + 1));
           EvStore (ID made)]
  /\ is_open made = true
  /\ ReceiveTextHandler made = false
  /\ ReceiveBinaryHandler made = false
  /\ ClosedHandler made = false.
Proof.
  apply Upgrade_Ok_inv in Hok
    as (m & Hmake & _ & Hid & Hopen & _ & Ht & Hb & Hc).
  pose proof (makeWebSocket_Ok _ _ _ _ _ Hmake) as (c & buffered & -> & Hm).
  apply makeWebSocket_Ok_inv in Hmake as [_ Hwd].
  assert (Hidm : ID m = wrap64 (global_id_gen (g wd) + 1)).
  { rewrite Hm. cbn [ID]. rewrite Hwd. reflexivity. }
  rewrite Hid, Hopen. rewrite Hwd. cbn.
  split; [exact Hidm|]. split; [now rewrite Hidm|].
  split.
  { exists m. rewrite <- Hidm. rewrite lookup_insert_eq.
    split; [reflexivity|]. split; [reflexivity|]. now rewrite Hm. }
  split.
  { intros id Hne. rewrite lookup_insert_ne; [reflexivity|].
    rewrite <- Hidm. congruence. }
  split; [reflexivity|]. split; [now rewrite <- app_assoc, Hidm|].
  split; [now rewrite Hm|]. repeat split; assumption.
Qed.

Lemma sample_upgrade_runs :
  Upgrade (Hijackable (sample_conn []) []) sample_request initial_world
  = (Ok sample_upgraded,
     snd (Upgrade (Hijackable (sample_conn []) []) sample_request
            initial_world)).
Proof. vm_compute. reflexivity. Qed.

Lemma upgraded_request_was_valid_witness :
  let r := sample_request in
  Method r = "GET"%string
  /\ ProtoAtLeast r 1 1 = true
  /\ Header r "Upgrade" = "websocket"%string
  /\ Header r "Connection" = "Upgrade"%string
  /\ Header r "Sec-Fetch-Mode" = "websocket"%string
  /\ Contains (Header r "Sec-WebSocket-Version") "13" = true
  /\ Header r "Sec-WebSocket-Protocol" = EmptyString
  /\ Header r "Origin" <> EmptyString
  /\ Header r "Sec-WebSocket-Key" <> EmptyString
  /\ global_websocket_count (g initial_world)
     < global_max_websockets (g initial_world).
Proof.
  intros r.
  refine (upgraded_request_was_valid (Hijackable (sample_conn []) []) r
            initial_world sample_upgraded _ _).
  vm_compute. reflexivity.
Defined.

Lemma Upgrade_registers_the_connection_witness :
  let wd := initial_world in
  let wd' := snd (Upgrade (Hijackable (sample_conn []) []) sample_request wd) in
  let made := sample_upgraded in
  ID made = wrap64 (global_id_gen (g wd) + 1)
  /\ global_id_gen (g wd') = ID made
  /\ (exists stored,
         global_websockets (g wd') !! ID made = Some stored
         /\ ID stored = ID made /\ is_open stored = true)
  /\ (forall id, id <> ID made ->
                 global_websockets (g wd') !! id
                 = global_websockets (g wd) !! id)
  /\ global_websocket_count (g wd')
     = wrap32 (global_websocket_count (g wd) + 1)
  /\ log wd'
     = log wd
       ++ [EvCountCAS (global_websocket_count (g wd))
             (wrap32 (global_websocket_count (g wd) + 1));
           EvStore (ID made)]
  /\ is_open made = true
  /\ ReceiveTextHandler made = false
  /\ ReceiveBinaryHandler made = false
  /\ ClosedHandler made = false.
Proof.
  intros wd wd' made.
  refine (Upgrade_registers_the_connection (Hijackable (sample_conn []) [])
            sample_request wd made wd' _).
  vm_compute. reflexivity.
Defined.

(** The Sec-WebSocket-Extensions header is never looked at: two requests
    that differ in nothing else are treated alike, and the connection
    negotiates no extension. *)
Theorem extensions_header_is_ignored w r r' wd
    (Hmethod : Method r' = Method r)
    (Hmajor : ProtoMajor r' = ProtoMajor r)
    (Hminor : ProtoMinor r' = ProtoMinor r)
    (Hheaders : forall name,
        name <> "Sec-WebSocket-Extensions"%string ->
        Header r' name = Header r name) :
  Upgrade w r' wd = Upgrade w r wd
  /\ forall made wd', Upgrade w r wd = (Ok made, wd') ->
                      extensions made = EmptyString.
Proof.
  split.
  - unfold Upgrade. f_equal.
    unfold makeWebSocket, ProtoAtLeast, validateExtensionsHeader.
    rewrite Hmethod, Hmajor, Hminor.
    rewrite !Hheaders by discriminate. reflexivity.
  - intros made wd' Hok. unfold Upgrade in Hok. unfold bind at 1 in Hok.
    destruct (makeWebSocket w r wd) as [[m| | |] wd1] eqn:Hmake;
      try discriminate.
    pose proof (makeWebSocket_Ok _ _ _ _ _ Hmake) as (c & buffered & -> & Hm).
    rewrite sendWebSocketHandshakeResponse_plain in Hok
      by (subst m; reflexivity).
    match type of Hok with
    | context [Flush ?s] => destruct (writable s) eqn:Hw
    end.
    + rewrite (Flush_writable _ Hw) in Hok. injection Hok as <- <-.
      subst m. reflexivity.
    + rewrite (Flush_down _ Hw) in Hok. discriminate.
Qed.

Lemma extensions_header_is_ignored_witness :
  let w := Hijackable (sample_conn []) [] in
  Upgrade w sample_request_deflate initial_world
  = Upgrade w sample_request initial_world
  /\ forall made wd',
       Upgrade w sample_request initial_world = (Ok made, wd') ->
       extensions made = EmptyString.
Proof.
  intros w.
  refine (extensions_header_is_ignored w sample_request sample_request_deflate
            initial_world _ _ _ _); try reflexivity.
  intros name Hname. cbn [Header sample_request_deflate].
  destruct (String.eqb_spec name "Sec-WebSocket-Extensions");
    [contradiction|reflexivity].
Defined.

Lemma wrap64_succ_neq z : wrap64 (z + 1) <> z.
Proof.
  unfold wrap64, wrap_signed. change (2 ^ (64 - 1)) with 9223372036854775808.
  change (2 ^ 64) with 18446744073709551616. intros H.
  pose proof (Z.div_mod (z + 1 + 9223372036854775808) 18446744073709551616
                ltac:(lia)). lia.
Qed.

(** The registry and the id generator after a successful upgrade. *)
Lemma Upgrade_Ok_registry w r wd made wd' :
  Upgrade w r wd = (Ok made, wd') ->
  exists stored,
    ID stored = ID made
    /\ ID made = wrap64 (global_id_gen (g wd) + 1)
    /\ global_id_gen (g wd') = ID made
    /\ global_websockets (g wd')
       = <[ID made := stored]> (global_websockets (g wd)).
Proof.
  intros Hok.
  apply Upgrade_Ok_inv in Hok as (m & Hmake & _ & Hid & _).
  pose proof (makeWebSocket_Ok _ _ _ _ _ Hmake) as (c & buffered & -> & Hm).
  apply makeWebSocket_Ok_inv in Hmake as [_ Hwd].
  assert (Hidm : ID m = wrap64 (global_id_gen (g wd) + 1)).
  { rewrite Hm. cbn [ID]. rewrite Hwd. reflexivity. }
  exists m. rewrite Hid. split; [reflexivity|]. split; [exact Hidm|].
  rewrite Hwd. cbn. rewrite <- Hidm. split; reflexivity.
Qed.

(** Two upgrades that follow each other get different ids, and both
    connections are in the registry under their ids. *)
Theorem successive_upgrades_get_distinct_ids w1 r1 w2 r2 wd m1 wd1 m2 wd2
    (Hfirst : Upgrade w1 r1 wd = (Ok m1, wd1))
    (Hsecond : Upgrade w2 r2 wd1 = (Ok m2, wd2)) :
  ID m2 <> ID m1
  /\ is_Some (global_websockets (g wd2) !! ID m1)
  /\ is_Some (global_websockets (g wd2) !! ID m2).
Proof.
  apply Upgrade_Ok_registry in Hfirst as (st1 & _ & _ & Hgen1 & Hreg1).
  apply Upgrade_Ok_registry in Hsecond as (st2 & _ & Hid2 & _ & Hreg2).
  assert (Hne : ID m2 <> ID m1).
  { rewrite Hid2, Hgen1. apply wrap64_succ_neq. }
  split; [exact Hne|]. rewrite Hreg2, Hreg1. split.
  - rewrite lookup_insert_ne by exact Hne. rewrite lookup_insert_eq. eauto.
  - rewrite lookup_insert_eq. eauto.
Qed.

Lemma successive_upgrades_get_distinct_ids_witness :
  let w := Hijackable (sample_conn []) [] in
  let first := Upgrade w sample_request initial_world in
  let second := Upgrade w sample_request (snd first) in
  let m2 :=
    {| ID := 2; rw := rw sample_upgraded; conn := conn sample_upgraded;
       protocol := EmptyString; extensions := EmptyString;
       client_key := client_key sample_upgraded; is_open := true;
       ReceiveBinaryHandler := false; ReceiveTextHandler := false;
       ClosedHandler := false |} in
  ID m2 <> ID sample_upgraded
  /\ is_Some (global_websockets (g (snd second)) !! ID sample_upgraded)
  /\ is_Some (global_websockets (g (snd second)) !! ID m2).
Proof.
  intros w first second m2.
  refine (successive_upgrades_get_distinct_ids w sample_request w
            sample_request initial_world sample_upgraded (snd first) m2
            (snd second) _ _); vm_compute; reflexivity.
Defined.

(** * Further properties of reading *)

Lemma next_chunk_Some inc c rest :
  next_chunk inc = Some (c, rest) -> c <> [] /\ concat inc = c ++ concat rest.
Proof.
  induction inc as [|[|b d] inc IH]; cbn [next_chunk]; intros H.
  - discriminate.
  - apply IH in H as [Hne Hcat]. split; [exact Hne|]. exact Hcat.
  - injection H as <- <-. split; [discriminate|reflexivity].
Qed.

Lemma next_chunk_None inc : next_chunk inc = None -> concat inc = [].
Proof.
  induction inc as [|[|b d] inc IH]; cbn [next_chunk]; intros H.
  - reflexivity.
  - cbn. apply IH, H.
  - discriminate.
Qed.

(** A refill gives a buffer that is not empty and loses no byte: the
    stream is the buffer followed by a tail that reading the buffer
    leaves alone. *)
Lemma fill_stream s :
  stream s <> [] ->
  exists buf inc tail,
    fill (ws s) = Some (buf, inc) /\ buf <> []
    /\ stream s = buf ++ tail
    /\ forall b, stream (feed b inc s) = b ++ tail.
Proof.
  destruct s as [[id [rb wb] [i st u cl] pr ex k op hb ht hc] wd].
  unfold stream, fill. cbn [ws rw conn rbuf closed incoming feed on_ws
    set_input set_conn set_rw]. intros Hne.
  destruct rb as [|b rb].
  - destruct cl; [cbn in Hne; congruence|].
    destruct (next_chunk i) as [[c rest]|] eqn:Hn.
    + apply next_chunk_Some in Hn as [Hc Hcat].
      exists c, rest, (concat rest). repeat split; [exact Hc|].
      cbn [app]. exact Hcat.
    + apply next_chunk_None in Hn. cbn in Hne. congruence.
  - exists (b :: rb), i, (if cl then [] else concat i).
    repeat split. discriminate.
Qed.

Lemma feed_self s : feed (rbuf (rw (ws s))) (incoming (conn (ws s))) s = s.
Proof.
  destruct s as [[id [rb wb] [i st u cl] pr ex k op hb ht hc] wd].
  reflexivity.
Qed.

(** The payload loop on a connection that can still deliver [need]
    bytes: it returns them, and moves nothing but the read position. *)
Lemma read_full_stream fuel : forall need s,
  (need <= fuel)%nat -> (need <= length (stream s))%nat ->
  exists buf' inc',
    read_full fuel need s = (Ok (take need (stream s)), feed buf' inc' s)
    /\ stream (feed buf' inc' s) = drop need (stream s).
Proof.
  induction fuel as [|fuel IH]; intros need s Hfuel Hlen.
  - assert (need = 0%nat) as -> by lia.
    exists (rbuf (rw (ws s))), (incoming (conn (ws s))).
    rewrite feed_self. split; reflexivity.
  - destruct need as [|need].
    + exists (rbuf (rw (ws s))), (incoming (conn (ws s))).
      rewrite feed_self. split; reflexivity.
    + destruct (fill_stream s)
        as (buf & inc & tail & Hfill & Hbuf & Hstream & Hfed).
      { intros Hnil. rewrite Hnil in Hlen. cbn in Hlen. lia. }
      cbn [read_full].
      erewrite bind_Ok by (unfold Read; rewrite Hfill; reflexivity).
      change (on_ws (set_input (drop (S need) buf) inc) s)
        with (feed (drop (S need) buf) inc s).
      assert (Hbl : (1 <= length buf)%nat)
        by (destruct buf; [congruence|cbn; lia]).
      rewrite Hstream in Hlen |- *. rewrite length_app in Hlen.
      destruct (decide (S need <= length buf)%nat) as [Hle|Hgt].
      * rewrite length_take, Nat.min_l, Nat.sub_diag by lia.
        rewrite read_full_0, bind_ret. unfold ret.
        exists (drop (S need) buf), inc.
        rewrite app_nil_r, Hfed.
        rewrite take_app_le, drop_app_le by exact Hle. split; reflexivity.
      * rewrite take_ge, drop_ge by lia.
        destruct (IH (S need - length buf)%nat (feed [] inc s))
          as (buf' & inc' & Hrun & Hrest); [lia|rewrite Hfed; cbn; lia|].
        erewrite bind_Ok by exact Hrun. unfold ret.
        exists buf', inc'. rewrite feed_feed in Hrest |- *.
        rewrite Hfed in Hrest |- *. cbn [app] in Hrest |- *.
        rewrite take_app_ge, drop_app_ge by lia.
        split; [reflexivity|exact Hrest].
Qed.

(** The payload loop puts the payload together from as many reads as it
    takes: whenever the connection can still deliver [need] bytes, in
    whatever pieces, the loop returns the next [need] bytes of the
    stream and leaves the rest to read. *)
Theorem read_full_reassembles need s
    (Henough : (need <= length (stream s))%nat) :
  exists s',
    read_full need need s = (Ok (take need (stream s)), s')
    /\ stream s' = drop need (stream s)
    /\ world s' = world s.
Proof.
  destruct (read_full_stream need need s) as (buf' & inc' & Hrun & Hrest);
    [lia|exact Henough|].
  exists (feed buf' inc' s). repeat split; assumption.
Qed.

(** A payload of five bytes that arrives in three pieces. *)
Lemma read_full_reassembles_witness :
  let s := sample_state [[1; 2]; []; [3]; [4; 5; 6]] in
  exists s',
    read_full 5 5 s = (Ok (take 5 (stream s)), s')
    /\ stream s' = drop 5 (stream s)
    /\ world s' = world s.
Proof.
  intros s. refine (read_full_reassembles 5 s _). vm_compute. lia.
Defined.

(** A frame whose header is in the read buffer, the payload being
    anywhere on the stream: the payload is gathered and dispatched. *)
Lemma readFrame_header_buffered s b1 b2 ext key p0 inc payload :
  fill (ws s) = Some (b1 :: b2 :: ext ++ key ++ p0, inc) ->
  is_open (ws s) = true ->
  fin_set b1 -> rsv_clear b1 -> known_opcode (Z.land b1 15) ->
  length ext = ext_size (Z.land b2 127) ->
  0 <= decode_length (Z.land b2 127) ext <= global_frame_max_size (g (world s)) ->
  length key = key_size b2 ->
  (Z.to_nat (decode_length (Z.land b2 127) ext)
   <= length (stream (feed p0 inc s)))%nat ->
  unmasked b2 key
    (take (Z.to_nat (decode_length (Z.land b2 127) ext))
       (stream (feed p0 inc s))) = Some payload ->
  exists buf' inc',
    readFrame s = dispatch (Z.land b1 15) payload (feed buf' inc' s)
    /\ stream (feed buf' inc' s)
       = drop (Z.to_nat (decode_length (Z.land b2 127) ext))
           (stream (feed p0 inc s)).
Proof.
  intros Hfill Hopen Hfin (Hr1 & Hr2 & Hr3) Hop Hext Hlen Hkey Hdata Hpay.
  set (len := decode_length (Z.land b2 127) ext) in *.
  destruct (read_full_stream (Z.to_nat len) (Z.to_nat len) (feed p0 inc s))
    as (buf' & inc' & Hrun & Hrest); [lia|exact Hdata|].
  rewrite feed_feed in Hrun, Hrest.
  exists buf', inc'. split; [|exact Hrest].
  unfold readFrame.
  erewrite bind_Ok by (apply ReadByte_fill, Hfill).
  unfold bind at 1, gets at 1. rewrite is_open_feed, Hopen. cbn [negb].
  unfold fin_set in Hfin. rewrite Hfin. cbn [Z.eqb Pos.eqb negb].
  apply Z.eqb_neq in Hr1, Hr2, Hr3. rewrite Hr1, Hr2, Hr3. cbn [orb].
  replace (negb _) with false.
  2:{ unfold known_opcode in Hop. cbn [In] in Hop.
      destruct Hop as [<-|[<-|[<-|[<-|[<-|[<-|[]]]]]]]; reflexivity. }
  erewrite bind_Ok by apply ReadByte_feed.
  erewrite (bind_Ok _ _ _ len (feed (key ++ p0) inc s)).
  2:{ subst len. unfold decode_length, ext_size in *.
      destruct (Z.land b2 127 =? 126).
      - erewrite bind_Ok by (apply Read_feed; [exact Hext|lia]).
        rewrite Hext. reflexivity.
      - destruct (Z.land b2 127 =? 127).
        + erewrite bind_Ok by (apply Read_feed; [exact Hext|lia]).
          rewrite Hext. reflexivity.
        + destruct ext; [reflexivity|discriminate]. }
  unfold bind at 1, gets at 1. rewrite world_feed.
  replace (_ <? len) with false by (symmetry; apply Z.ltb_ge; lia).
  unfold unmasked, key_size, mask_flag in *.
  replace (len <? 0) with false by (symmetry; apply Z.ltb_ge; lia).
  destruct (Z.land b2 128 =? 128).
  - erewrite (bind_Ok _ _ _ key (feed p0 inc s)).
    2:{ erewrite bind_Ok by (apply Read_feed; [exact Hkey|lia]).
        rewrite Hkey. reflexivity. }
    erewrite bind_Ok by exact Hrun.
    rewrite Hpay. reflexivity.
  - destruct key; [|discriminate]. cbn [app].
    unfold bind at 1, ret at 1.
    erewrite bind_Ok by exact Hrun.
    injection Hpay as <-. reflexivity.
Qed.

(** A Text frame is delivered whole however its payload is cut into
    reads: when the read buffer holds the header of the frame and the
    stream can deliver the payload, in any number of pieces, the handler
    is called once with the whole unmasked payload, and what follows the
    frame on the stream is left to read. *)
Theorem text_frame_in_pieces s b1 b2 ext key p0 inc payload
    (Hfill : fill (ws s) = Some (b1 :: b2 :: ext ++ key ++ p0, inc))
    (Hopen : is_open (ws s) = true)
    (Hhandler : ReceiveTextHandler (ws s) = true)
    (Hfin : fin_set b1) (Hrsv : rsv_clear b1)
    (Hop : Z.land b1 15 = OPCODE_TEXT)
    (Hext : length ext = ext_size (Z.land b2 127))
    (Hlen : 0 <= decode_length (Z.land b2 127) ext
            <= global_frame_max_size (g (world s)))
    (Hkey : length key = key_size b2)
    (Hdata : (Z.to_nat (decode_length (Z.land b2 127) ext)
              <= length (stream (feed p0 inc s)))%nat)
    (Hpay : unmasked b2 key
              (take (Z.to_nat (decode_length (Z.land b2 127) ext))
                 (stream (feed p0 inc s))) = Some payload) :
  exists s',
    readFrame s = (Ok tt, s')
    /\ log (world s') = log (world s) ++ [EvReceiveText (ID (ws s)) payload]
    /\ stream s'
       = drop (Z.to_nat (decode_length (Z.land b2 127) ext))
           (stream (feed p0 inc s)).
Proof.
  destruct (readFrame_header_buffered s b1 b2 ext key p0 inc payload)
    as (buf' & inc' & Hrun & Hrest); try assumption.
  { rewrite Hop. unfold known_opcode. cbn. tauto. }
  rewrite Hop, dispatch_text in Hrun.
  change (ReceiveTextHandler (ws (feed buf' inc' s)))
    with (ReceiveTextHandler (ws s)) in Hrun.
  rewrite Hhandler in Hrun.
  eexists. split; [exact Hrun|]. split; [reflexivity|exact Hrest].
Qed.

(** "Hello", unmasked, in three reads, followed by one more byte. *)
Lemma text_frame_in_pieces_witness :
  let s := sample_state [[129; 5; 72]; [101; 108]; [108; 111; 9]] in
  exists s',
    readFrame s = (Ok tt, s')
    /\ log (world s') = log (world s)
                        ++ [EvReceiveText (ID (ws s)) [72; 101; 108; 108; 111]]
    /\ stream s'
       = drop (Z.to_nat (decode_length (Z.land 5 127) []))
           (stream (feed [72] [[101; 108]; [108; 111; 9]] s)).
Proof.
  intros s.
  refine (text_frame_in_pieces s 129 5 [] [] [72] [[101; 108]; [108; 111; 9]]
            [72; 101; 108; 108; 111] _ _ _ _ _ _ _ _ _ _ _); by_evaluation.
Defined.

(** The steps of [readFrame] up to the second byte, for a first byte
    that passes the checks. *)
Ltac past_second_byte Hfill Hopen Hfin Hr1 Hr2 Hr3 Hop :=
  unfold readFrame;
  erewrite bind_Ok by (apply ReadByte_fill, Hfill);
  unfold bind at 1, gets at 1; rewrite is_open_feed, Hopen; cbn [negb];
  rewrite Hfin; cbn [Z.eqb Pos.eqb negb];
  rewrite (proj2 (Z.eqb_neq _ _) Hr1), (proj2 (Z.eqb_neq _ _) Hr2),
    (proj2 (Z.eqb_neq _ _) Hr3); cbn [orb];
  replace (negb _) with false
    by (unfold known_opcode in Hop; cbn [In] in Hop;
        destruct Hop as [<-|[<-|[<-|[<-|[<-|[<-|[]]]]]]]; reflexivity);
  erewrite bind_Ok by apply ReadByte_feed.

(** ** Header fields cut by a read *)

(** The extended length and the mask key are each taken with a single
    read.  When the read buffer ends inside one of them, the read comes
    back short and the frame is refused, "Could not read extended
    payload length" or "Could not read masking key", whatever the
    connection would have delivered next. *)
Theorem header_cut_by_a_read_is_refused s b1 b2 part inc
    (Hfill : fill (ws s) = Some (b1 :: b2 :: part, inc))
    (Hopen : is_open (ws s) = true)
    (Hfin : fin_set b1) (Hrsv : rsv_clear b1)
    (Hop : known_opcode (Z.land b1 15)) :
  ((0 < length part < ext_size (Z.land b2 127))%nat ->
   readFrame s = (Err ErrExtendedLength, feed [] inc s))
  /\ (forall ext key_part,
        part = ext ++ key_part ->
        length ext = ext_size (Z.land b2 127) ->
        decode_length (Z.land b2 127) ext
        <= global_frame_max_size (g (world s)) ->
        mask_flag b2 = true ->
        (0 < length key_part < 4)%nat ->
        readFrame s = (Err ErrMaskKey, feed [] inc s)).
Proof.
  destruct Hrsv as (Hr1 & Hr2 & Hr3).
  assert (Hshort : forall n (p : list Z),
    p <> [] -> (length p < n)%nat ->
    Read n (feed p inc s) = (Ok p, feed [] inc s)).
  { intros n p Hp Hn. unfold Read. rewrite fill_feed by exact Hp.
    rewrite take_ge, drop_ge by lia. reflexivity. }
  split.
  - intros [Hpos Hsize]. unfold ext_size in Hsize.
    assert (Hp : part <> [])
      by (destruct part; [cbn in Hpos; lia|discriminate]).
    past_second_byte Hfill Hopen Hfin Hr1 Hr2 Hr3 Hop.
    destruct (Z.land b2 127 =? 126).
    + erewrite bind_Err; [reflexivity|].
      erewrite bind_Ok by (apply Hshort; [exact Hp|lia]).
      replace (length part =? 2)%nat with false
        by (symmetry; apply Nat.eqb_neq; lia). reflexivity.
    + destruct (Z.land b2 127 =? 127); [|lia].
      erewrite bind_Err; [reflexivity|].
      erewrite bind_Ok by (apply Hshort; [exact Hp|lia]).
      replace (length part =? 8)%nat with false
        by (symmetry; apply Nat.eqb_neq; lia). reflexivity.
  - intros ext key_part -> Hext Hlen Hmask [Hpos Hsize].
    assert (Hp : key_part <> [])
      by (destruct key_part; [cbn in Hpos; lia|discriminate]).
    past_second_byte Hfill Hopen Hfin Hr1 Hr2 Hr3 Hop.
    erewrite (bind_Ok _ _ _ (decode_length (Z.land b2 127) ext)
                (feed key_part inc s)).
    2:{ unfold decode_length, ext_size in *.
        destruct (Z.land b2 127 =? 126).
        - erewrite bind_Ok by (apply Read_feed; [exact Hext|lia]).
          rewrite Hext. reflexivity.
        - destruct (Z.land b2 127 =? 127).
          + erewrite bind_Ok by (apply Read_feed; [exact Hext|lia]).
            rewrite Hext. reflexivity.
          + destruct ext; [reflexivity|discriminate]. }
    rewrite bind_gets, world_feed.
    replace (_ <? _) with false by (symmetry; apply Z.ltb_ge; lia).
    unfold mask_flag in Hmask. rewrite Hmask.
    erewrite bind_Err; [reflexivity|].
    erewrite bind_Ok by (apply Hshort; [exact Hp|lia]).
    replace (length key_part =? 4)%nat with false
      by (symmetry; apply Nat.eqb_neq; lia). reflexivity.
Qed.

(** A masked Ping whose key is cut after two bytes; the rest of the
    frame is in the next chunk. *)
Lemma header_cut_by_a_read_is_refused_witness :
  let s := sample_state [[137; 130; 1; 2]; [3; 4; 7; 7]] in
  ((0 < length [1; 2] < ext_size (Z.land 130 127))%nat ->
   readFrame s = (Err ErrExtendedLength, feed [] [[3; 4; 7; 7]] s))
  /\ (forall ext key_part,
        [1; 2] = ext ++ key_part ->
        length ext = ext_size (Z.land 130 127) ->
        decode_length (Z.land 130 127) ext
        <= global_frame_max_size (g (world s)) ->
        mask_flag 130 = true ->
        (0 < length key_part < 4)%nat ->
        readFrame s = (Err ErrMaskKey, feed [] [[3; 4; 7; 7]] s)).
Proof.
  intros s.
  refine (header_cut_by_a_read_is_refused s 137 130 [1; 2] [[3; 4; 7; 7]]
            _ _ _ _ _); by_evaluation.
Defined.

(** * The read loop ends *)

Section Quiet.

Lemma quiet_ret {A} (a : A) : quiet (ret a).
Proof. intros s r s' [= <- <-]. split; [discriminate|lia]. Qed.

Lemma quiet_fail {A} e : quiet (@fail State A e).
Proof. intros s r s' [= <- <-]. split; [discriminate|lia]. Qed.

Lemma quiet_panic {A} : quiet (@panic State A).
Proof. intros s r s' [= <- <-]. split; [discriminate|lia]. Qed.

Lemma quiet_gets {A} (f : State -> A) : quiet (gets f).
Proof. intros s r s' [= <- <-]. split; [discriminate|lia]. Qed.

Lemma quiet_modify (f : State -> State) :
  (forall s, pending (f s) = pending s) -> quiet (modify f).
Proof.
  intros Hf s r s' [= <- <-]. split; [discriminate|]. rewrite Hf. lia.
Qed.

Lemma quiet_bind {A B} (m : M State A) (k : A -> M State B) :
  quiet m -> (forall a, quiet (k a)) -> quiet (bind m k).
Proof.
  intros Hm Hk s r s'. unfold bind.
  destruct (m s) as [[a| | |] s1] eqn:Hms; intros Hr.
  - destruct (Hm _ _ _ Hms) as [_ H1]. destruct (Hk a _ _ _ Hr) as [H2 H3].
    split; [exact H2|lia].
  - injection Hr as <- <-. destruct (Hm _ _ _ Hms) as [_ H1].
    split; [discriminate|exact H1].
  - injection Hr as <- <-. destruct (Hm _ _ _ Hms) as [_ H1].
    split; [discriminate|exact H1].
  - destruct (Hm _ _ _ Hms) as [H1 _]. congruence.
Qed.

Lemma quiet_ignore_error (m : M State unit) :
  quiet m -> quiet (ignore_error m).
Proof.
  intros Hm s r s'. unfold ignore_error.
  destruct (m s) as [[a| | |] s1] eqn:Hms; intros [= <- <-];
    destruct (Hm _ _ _ Hms) as [H1 H2]; (split; [congruence|exact H2]).
Qed.

Lemma quiet_emit e : quiet (emit e).
Proof. apply quiet_modify. reflexivity. Qed.

Lemma quiet_Write p : quiet (Write p).
Proof. apply quiet_modify. reflexivity. Qed.

Lemma quiet_Flush : quiet Flush.
Proof.
  intros s r s'. unfold Flush.
  destruct (up (conn (ws s)) && negb (closed (conn (ws s))));
    intros [= <- <-]; (split; [discriminate|]);
    apply Nat.eq_le_incl; reflexivity.
Qed.

(** A refill loses no byte, and what it gives is not empty. *)
Lemma fill_pending s buf inc :
  fill (ws s) = Some (buf, inc) ->
  buf <> [] /\ pending s = (length buf + length (concat inc))%nat.
Proof.
  unfold fill, pending.
  destruct (rbuf (rw (ws s))) as [|b rb].
  - destruct (closed (conn (ws s))); [discriminate|]. intros Hn.
    apply next_chunk_Some in Hn as [Hne Hcat]. split; [exact Hne|].
    rewrite Hcat, length_app. cbn. lia.
  - intros [= <- <-]. split; [discriminate|reflexivity].
Qed.

Lemma pending_feed buf inc s :
  pending (feed buf inc s) = (length buf + length (concat inc))%nat.
Proof. reflexivity. Qed.

Lemma quiet_Read k : quiet (Read k).
Proof.
  intros s r s'. unfold Read.
  destruct (fill (ws s)) as [[buf inc]|] eqn:Hfill; intros [= <- <-].
  - apply fill_pending in Hfill as [_ ->]. split; [discriminate|].
    change (on_ws (set_input (drop k buf) inc) s)
      with (feed (drop k buf) inc s).
    rewrite pending_feed, length_drop. lia.
  - split; [discriminate|lia].
Qed.

(** A byte read is a byte less to come. *)
Lemma ReadByte_consumes s b s' :
  ReadByte s = (Ok b, s') -> (pending s' < pending s)%nat.
Proof.
  unfold ReadByte.
  destruct (fill (ws s)) as [[[|b0 buf] inc]|] eqn:Hfill; try discriminate.
  intros [= <- <-]. apply fill_pending in Hfill as [_ ->].
  change (on_ws (set_input buf inc) s) with (feed buf inc s).
  rewrite pending_feed. cbn. lia.
Qed.

Lemma quiet_ReadByte : quiet ReadByte.
Proof.
  intros s r s' H. destruct r as [b| | |].
  - apply ReadByte_consumes in H. split; [discriminate|lia].
  - unfold ReadByte in H.
    destruct (fill (ws s)) as [[[|b0 buf] inc]|]; try discriminate;
      injection H as <- <-; (split; [discriminate|lia]).
  - unfold ReadByte in H.
    destruct (fill (ws s)) as [[[|b0 buf] inc]|]; discriminate.
  - unfold ReadByte in H.
    destruct (fill (ws s)) as [[[|b0 buf] inc]|]; discriminate.
Qed.

(** The payload loop never lacks fuel: a read with room for a byte
    returns at least one. *)
Lemma quiet_read_full fuel : forall need,
  (need <= fuel)%nat -> quiet (read_full fuel need).
Proof.
  induction fuel as [|fuel IH]; intros need Hfuel.
  - assert (need = 0%nat) as -> by lia. apply quiet_ret.
  - destruct need as [|need]; [apply quiet_ret|].
    cbn [read_full]. intros s r s'. unfold bind at 1.
    destruct (Read (S need) s) as [[bs| | |] s1] eqn:Hread.
    + unfold Read in Hread.
      destruct (fill (ws s)) as [[buf inc]|] eqn:Hfill; [|discriminate].
      injection Hread as <- <-.
      pose proof (fill_pending _ _ _ Hfill) as [Hne Hpend].
      assert (Hlen : (1 <= length (take (S need) buf))%nat).
      { rewrite length_take. destruct buf; [congruence|cbn; lia]. }
      intros Hrest.
      assert (Hq : quiet (do rest <- read_full fuel
                                     (S need - length (take (S need) buf));
                          ret (take (S need) buf ++ rest))).
      { apply quiet_bind; [apply IH; lia|intros; apply quiet_ret]. }
      destruct (Hq _ _ _ Hrest) as [H1 H2]. split; [exact H1|].
      change (on_ws (set_input (drop (S need) buf) inc) s)
        with (feed (drop (S need) buf) inc s) in H2.
      rewrite pending_feed, length_drop in H2. lia.
    + intros [= <- <-]. destruct (quiet_Read _ _ _ _ Hread) as [_ H].
      split; [discriminate|exact H].
    + intros [= <- <-]. destruct (quiet_Read _ _ _ _ Hread) as [_ H].
      split; [discriminate|exact H].
    + destruct (quiet_Read _ _ _ _ Hread) as [H _]. congruence.
Qed.

Lemma quiet_sendFrame opcode key payload : quiet (sendFrame opcode key payload).
Proof.
  unfold sendFrame. destruct (15 <? opcode); [apply quiet_fail|].
  apply quiet_bind.
  - destruct (length key =? 4)%nat; [|apply quiet_ret].
    destruct (maskData key payload); [apply quiet_ret|apply quiet_panic].
  - intros p. apply quiet_bind; [apply quiet_Write|intros _].
    apply quiet_bind; [apply quiet_Write|intros _]. apply quiet_Flush.
Qed.

Lemma quiet_closeWebSocket data : quiet (closeWebSocket data).
Proof.
  unfold closeWebSocket.
  apply quiet_bind; [apply quiet_gets|intros [|]; [|apply quiet_ret]].
  apply quiet_bind; [apply quiet_gets|intros id].
  apply quiet_bind; [apply quiet_modify; reflexivity|intros _].
  apply quiet_bind; [apply quiet_modify; reflexivity|intros _].
  apply quiet_bind; [apply quiet_emit|intros _].
  apply quiet_bind; [apply quiet_ignore_error, quiet_sendFrame|intros _].
  apply quiet_bind.
  { unfold ConnClose.
    apply quiet_bind; [apply quiet_gets|intros id'].
    apply quiet_bind; [apply quiet_emit|intros _].
    apply quiet_modify; reflexivity. }
  intros _.
  apply quiet_bind; [apply quiet_modify; reflexivity|intros _].
  apply quiet_bind; [apply quiet_emit|intros _].
  apply quiet_bind; [apply quiet_gets|intros [|]];
    [apply quiet_emit|apply quiet_ret].
Qed.

Lemma quiet_dispatch opcode data : quiet (dispatch opcode data).
Proof.
  unfold dispatch.
  destruct (opcode =? OPCODE_CLOSE); [apply quiet_closeWebSocket|].
  destruct (opcode =? OPCODE_PING);
    [apply quiet_ignore_error, quiet_sendFrame|].
  destruct (opcode =? OPCODE_PONG); [apply quiet_ret|].
  destruct (opcode =? OPCODE_TEXT).
  { apply quiet_bind; [apply quiet_gets|intros [|]; [|apply quiet_ret]].
    apply quiet_bind; [apply quiet_gets|intros ?; apply quiet_emit]. }
  destruct (opcode =? OPCODE_BINARY); [|apply quiet_ret].
  apply quiet_bind; [apply quiet_gets|intros [|]; [|apply quiet_ret]].
  apply quiet_bind; [apply quiet_gets|intros ?; apply quiet_emit].
Qed.

End Quiet.

Ltac quiet_step :=
  match goal with
  | |- quiet (bind _ _) => apply quiet_bind; [|intros ?]
  | |- quiet (ret _) => apply quiet_ret
  | |- quiet (fail _) => apply quiet_fail
  | |- quiet panic => apply quiet_panic
  | |- quiet (gets _) => apply quiet_gets
  | |- quiet (emit _) => apply quiet_emit
  | |- quiet (dispatch _ _) => apply quiet_dispatch
  | |- quiet ReadByte => apply quiet_ReadByte
  | |- quiet (Read _) => apply quiet_Read
  | |- quiet (read_full _ _) => apply quiet_read_full; lia
  | |- quiet (if ?b then _ else _) => destruct b
  | |- quiet (match ?x with _ => _ end) => destruct x
  end.

(** [readFrame] is a byte read followed by steps that give nothing
    back. *)
Lemma readFrame_parts :
  exists k, readFrame = bind ReadByte k /\ forall b1, quiet (k b1).
Proof.
  eexists. split; [reflexivity|]. intros b1. cbv beta zeta.
  repeat quiet_step.
Qed.

Lemma readFrame_quiet : quiet readFrame.
Proof.
  destruct readFrame_parts as (k & -> & Hk).
  apply quiet_bind; [apply quiet_ReadByte|exact Hk].
Qed.

(** A frame read that returns nil has consumed at least one byte. *)
Lemma readFrame_consumes s s' :
  readFrame s = (Ok tt, s') -> (pending s' < pending s)%nat.
Proof.
  destruct readFrame_parts as (k & -> & Hk). unfold bind.
  destruct (ReadByte s) as [[b| | |] s1] eqn:Hb; try discriminate.
  intros Hrest. apply ReadByte_consumes in Hb.
  destruct (Hk b _ _ _ Hrest) as [_ H]. lia.
Qed.

Lemma closeWebSocket_returns data s :
  exists s', closeWebSocket data s = (Ok tt, s') /\ is_open (ws s') = false.
Proof.
  destruct (is_open (ws s)) eqn:Hopen.
  - destruct (closeWebSocket_open data s Hopen)
      as (s1 & Hrun & _ & _ & _ & Hclosed & _).
    exists s1. split; assumption.
  - exists s. split; [apply closeWebSocket_closed|]; exact Hopen.
Qed.

(** The read loop ends.  Given more iterations than the peer has sent
    bytes, [readLoop] never stops for lack of them: it returns, and then
    the connection is not open any more, or it panics.  No input keeps
    it reading for ever, and it never returns with the connection
    open. *)
Theorem readLoop_ends_closed fuel s
    (Hfuel : (pending s < fuel)%nat) :
  exists s',
    (readLoop fuel s = (Ok tt, s') /\ is_open (ws s') = false)
    \/ readLoop fuel s = (Panic, s').
Proof.
  revert s Hfuel. induction fuel as [|fuel IH]; intros s Hfuel; [lia|].
  cbn [readLoop].
  destruct (readFrame s) as [[[]| e | |] s1] eqn:Hread.
  - apply readFrame_consumes in Hread. apply IH. lia.
  - destruct (closeWebSocket_returns
                (makeStatusCodeBytes ERROR_CODE_NORMAL_CLOSURE) s1)
      as (s' & Hrun & Hclosed).
    exists s'. left. split; assumption.
  - exists s1. now right.
  - destruct (readFrame_quiet _ _ _ Hread) as [H _]. congruence.
Qed.

(** Two Text frames, then the end of the stream. *)
Lemma readLoop_ends_closed_witness :
  let s := sample_state [[129; 1; 65; 129]; [1; 66]] in
  exists s',
    (readLoop 7 s = (Ok tt, s') /\ is_open (ws s') = false)
    \/ readLoop 7 s = (Panic, s').
Proof.
  intros s. refine (readLoop_ends_closed 7 s _). vm_compute. lia.
Defined.

(** * Further properties of sending *)

Lemma frame_header_short_key opcode key len :
  length key <> 4%nat -> frame_header opcode key len = frame_header opcode [] len.
Proof.
  intros Hk. unfold frame_header.
  apply Nat.eqb_neq in Hk. rewrite Hk. cbn [length Nat.eqb].
  now rewrite !app_nil_r.
Qed.

Lemma sendFrame_short_key opcode key payload :
  length key <> 4%nat ->
  sendFrame opcode key payload = sendFrame opcode [] payload.
Proof.
  intros Hk. unfold sendFrame.
  rewrite (frame_header_short_key _ _ _ Hk).
  apply Nat.eqb_neq in Hk. rewrite Hk. reflexivity.
Qed.

(** How a send ends.  A key that is not four bytes long is not used.
    An opcode above 15 is refused before anything is written.  Otherwise
    the frame goes out whole when the transport is up, and when it is
    not the error of the flush is returned and the peer receives
    nothing.  The trace and the variables of the package are never
    touched. *)
Theorem sendFrame_outcome opcode key payload s
    (Hkey : length key <> 4%nat)
    (Hbuf : wbuf (rw (ws s)) = []) :
  (15 < opcode ->
   sendFrame opcode key payload s = (Err (ErrInvalidOpcode opcode), s))
  /\ (opcode <= 15 -> writable s = true ->
      sendFrame opcode key payload s
      = (Ok tt,
         transmit (tier_header opcode (Z.of_nat (length payload)) ++ payload)
           s))
  /\ (opcode <= 15 -> writable s = false ->
      exists s',
        sendFrame opcode key payload s = (Err ErrTransport, s')
        /\ sent (conn (ws s')) = sent (conn (ws s))
        /\ world s' = world s).
Proof.
  rewrite (sendFrame_short_key _ _ _ Hkey). split; [|split].
  - intros Hop. unfold sendFrame.
    replace (15 <? opcode) with true by (symmetry; apply Z.ltb_lt; lia).
    reflexivity.
  - intros Hop Hup. rewrite sendFrame_sent by assumption.
    now rewrite frame_header_tiers by lia.
  - intros Hop Hdown. rewrite sendFrame_unmasked by exact Hop.
    rewrite Flush_down by exact Hdown. eexists. split; [reflexivity|].
    split; reflexivity.
Qed.

(** A key of three bytes is passed: the frame goes out unmasked. *)
Lemma sendFrame_outcome_witness :
  let s := sample_state [] in
  (15 < OPCODE_TEXT ->
   sendFrame OPCODE_TEXT [1; 2; 3] [72; 105] s
   = (Err (ErrInvalidOpcode OPCODE_TEXT), s))
  /\ (OPCODE_TEXT <= 15 -> writable s = true ->
      sendFrame OPCODE_TEXT [1; 2; 3] [72; 105] s
      = (Ok tt,
         transmit (tier_header OPCODE_TEXT (Z.of_nat (length [72; 105]))
                   ++ [72; 105]) s))
  /\ (OPCODE_TEXT <= 15 -> writable s = false ->
      exists s',
        sendFrame OPCODE_TEXT [1; 2; 3] [72; 105] s = (Err ErrTransport, s')
        /\ sent (conn (ws s')) = sent (conn (ws s))
        /\ world s' = world s).
Proof.
  intros s.
  refine (sendFrame_outcome OPCODE_TEXT [1; 2; 3] [72; 105] s _ _);
    by_evaluation.
Defined.





(** [SendBinary] and [SendText] reach the handler of the same kind on
    the other side with the message unchanged, at every length below
    2^63 that the receiver accepts: a text goes out as its bytes. *)
Theorem Send_round_trip (message : list byte) (text : string) tx
    (Hlen : Z.of_nat (length message) < 9223372036854775808)
    (Htext : Z.of_nat (length (bytes_of_string text)) < 9223372036854775808)
    (Hup : writable tx = true)
    (Hbuf : wbuf (rw (ws tx)) = []) :
  (exists encoded tx',
      SendBinary message tx = (Ok tt, tx')
      /\ sent (conn (ws tx')) = sent (conn (ws tx)) ++ encoded
      /\ forall rx more inc,
           fill (ws rx) = Some (encoded ++ more, inc) ->
           is_open (ws rx) = true ->
           ReceiveTextHandler (ws rx) = true ->
           ReceiveBinaryHandler (ws rx) = true ->
           Z.of_nat (length message) <= global_frame_max_size (g (world rx)) ->
           readFrame rx
           = (Ok tt,
              on_world (record (EvReceiveBinary (ID (ws rx)) message))
                (feed more inc rx)))
  /\ (exists encoded tx',
         SendText text tx = (Ok tt, tx')
         /\ sent (conn (ws tx')) = sent (conn (ws tx)) ++ encoded
         /\ forall rx more inc,
              fill (ws rx) = Some (encoded ++ more, inc) ->
              is_open (ws rx) = true ->
              ReceiveTextHandler (ws rx) = true ->
              ReceiveBinaryHandler (ws rx) = true ->
              Z.of_nat (length (bytes_of_string text))
              <= global_frame_max_size (g (world rx)) ->
              readFrame rx
              = (Ok tt,
                 on_world
                   (record (EvReceiveText (ID (ws rx)) (bytes_of_string text)))
                   (feed more inc rx))).
Proof.
  split.
  - eexists _, _. split; [|split].
    + unfold SendBinary. apply sendFrame_sent;
        [discriminate|exact Hup|exact Hbuf].
    + rewrite frame_header_tiers by lia. reflexivity.
    + intros rx more inc Hfill Hopen Ht Hb Hmax.
      exact (data_frame_round_trip OPCODE_BINARY message rx more inc
               (or_intror eq_refl) Hlen Hfill Hopen Ht Hb Hmax).
  - eexists _, _. split; [|split].
    + unfold SendText. apply sendFrame_sent;
        [discriminate|exact Hup|exact Hbuf].
    + rewrite frame_header_tiers by lia. reflexivity.
    + intros rx more inc Hfill Hopen Ht Hb Hmax.
      exact (data_frame_round_trip OPCODE_TEXT (bytes_of_string text) rx more
               inc (or_introl eq_refl) Htext Hfill Hopen Ht Hb Hmax).
Qed.

Lemma Send_round_trip_witness :
  let tx := sample_state [] in
  let message := repeat 7 300 in
  let text := "Welcome to the Chat!"%string in
  (exists encoded tx',
      SendBinary message tx = (Ok tt, tx')
      /\ sent (conn (ws tx')) = sent (conn (ws tx)) ++ encoded
      /\ forall rx more inc,
           fill (ws rx) = Some (encoded ++ more, inc) ->
           is_open (ws rx) = true ->
           ReceiveTextHandler (ws rx) = true ->
           ReceiveBinaryHandler (ws rx) = true ->
           Z.of_nat (length message) <= global_frame_max_size (g (world rx)) ->
           readFrame rx
           = (Ok tt,
              on_world (record (EvReceiveBinary (ID (ws rx)) message))
                (feed more inc rx)))
  /\ (exists encoded tx',
         SendText text tx = (Ok tt, tx')
         /\ sent (conn (ws tx')) = sent (conn (ws tx)) ++ encoded
         /\ forall rx more inc,
              fill (ws rx) = Some (encoded ++ more, inc) ->
              is_open (ws rx) = true ->
              ReceiveTextHandler (ws rx) = true ->
              ReceiveBinaryHandler (ws rx) = true ->
              Z.of_nat (length (bytes_of_string text))
              <= global_frame_max_size (g (world rx)) ->
              readFrame rx
              = (Ok tt,
                 on_world
                   (record (EvReceiveText (ID (ws rx)) (bytes_of_string text)))
                   (feed more inc rx))).
Proof.
  intros tx message text.
  refine (Send_round_trip message text tx _ _ _ _); by_evaluation.
Defined.

(** * Frames that leave no trace *)

(** A Pong, and a Text or Binary frame for which no handler is set, are
    read to their end and dropped: [readFrame] returns nil, calls
    nothing and sends nothing. *)
Theorem unhandled_frame_is_dropped s b1 b2 ext key data more inc payload
    (Hfill : fill (ws s) = Some (b1 :: b2 :: ext ++ key ++ data ++ more, inc))
    (Hopen : is_open (ws s) = true)
    (Hfin : fin_set b1) (Hrsv : rsv_clear b1)
    (Hcase : Z.land b1 15 = OPCODE_PONG
             \/ (Z.land b1 15 = OPCODE_TEXT
                 /\ ReceiveTextHandler (ws s) = false)
             \/ (Z.land b1 15 = OPCODE_BINARY
                 /\ ReceiveBinaryHandler (ws s) = false))
    (Hext : length ext = ext_size (Z.land b2 127))
    (Hlen : 0 <= decode_length (Z.land b2 127) ext
            <= global_frame_max_size (g (world s)))
    (Hkey : length key = key_size b2)
    (Hdata : length data = Z.to_nat (decode_length (Z.land b2 127) ext))
    (Hpay : unmasked b2 key data = Some payload) :
  readFrame s = (Ok tt, feed more inc s).
Proof.
  erewrite readFrame_buffered; try eassumption.
  - destruct Hcase as [Hop|[[Hop Hh]|[Hop Hh]]]; rewrite Hop.
    + apply dispatch_pong.
    + rewrite dispatch_text.
      change (ReceiveTextHandler (ws (feed more inc s)))
        with (ReceiveTextHandler (ws s)). now rewrite Hh.
    + rewrite dispatch_binary.
      change (ReceiveBinaryHandler (ws (feed more inc s)))
        with (ReceiveBinaryHandler (ws s)). now rewrite Hh.
  - unfold known_opcode.
    destruct Hcase as [Hop|[[Hop _]|[Hop _]]]; rewrite Hop; cbn; tauto.
Qed.

Lemma unhandled_frame_is_dropped_witness :
  let s := sample_state [[138; 2; 7; 8; 129]] in
  readFrame s = (Ok tt, feed [129] [] s).
Proof.
  intros s.
  refine (unhandled_frame_is_dropped s 138 2 [] [] [7; 8] [129] [] [7; 8]
            _ _ _ _ _ _ _ _ _ _); by_evaluation.
Defined.

(** * A 64-bit length with its top bit set *)

Lemma shl64_top_bit e0 :
  128 <= e0 < 256 -> shl64 e0 56 < 0.
Proof.
  intros He. unfold shl64, wrap64, wrap_signed.
  rewrite Z.shiftl_mul_pow2 by lia.
  change (2 ^ 56) with 72057594037927936.
  change (2 ^ (64 - 1)) with 9223372036854775808.
  change (2 ^ 64) with 18446744073709551616.
  pose proof (Z.div_mod (e0 * 72057594037927936 + 9223372036854775808)
                18446744073709551616 ltac:(lia)) as Hdm.
  pose proof (Z.mod_pos_bound
                (e0 * 72057594037927936 + 9223372036854775808)
                18446744073709551616 ltac:(lia)) as Hb.
  lia.
Qed.

(** Every frame that announces its length on 64 bits with the top bit
    set makes [readFrame] panic, once the mask key, if any, is read:
    the length, negative in an [int64], passes the comparison with the
    maximum and the allocation of the payload fails.  No error is
    returned and no byte of the payload is read. *)
Theorem top_bit_length_panics s b1 b2 e0 e1 e2 e3 e4 e5 e6 e7 key rest inc
    (Hfill : fill (ws s)
             = Some (b1 :: b2 :: [e0; e1; e2; e3; e4; e5; e6; e7]
                        ++ key ++ rest, inc))
    (Hopen : is_open (ws s) = true)
    (Hfin : fin_set b1) (Hrsv : rsv_clear b1)
    (Hop : known_opcode (Z.land b1 15))
    (Hbase : Z.land b2 127 = 127)
    (Htop : 128 <= e0 < 256)
    (Hkey : length key = key_size b2)
    (Hmax : 0 <= global_frame_max_size (g (world s))) :
  readFrame s = (Panic, feed rest inc s).
Proof.
  destruct Hrsv as (Hr1 & Hr2 & Hr3).
  assert (Hneg : length64 [e0; e1; e2; e3; e4; e5; e6; e7] < 0).
  { unfold length64, byte_at. cbn [nth].
    repeat (apply Z.lor_neg; left). apply shl64_top_bit, Htop. }
  past_second_byte Hfill Hopen Hfin Hr1 Hr2 Hr3 Hop.
  rewrite Hbase. cbn [Z.eqb Pos.eqb].
  erewrite (bind_Ok _ _ _ (length64 [e0; e1; e2; e3; e4; e5; e6; e7])
              (feed (key ++ rest) inc s)).
  2:{ erewrite bind_Ok
        by (apply (Read_feed 8 [e0; e1; e2; e3; e4; e5; e6; e7]);
            [reflexivity|lia]).
      reflexivity. }
  rewrite bind_gets, world_feed.
  replace (_ <? _) with false by (symmetry; apply Z.ltb_ge; lia).
  unfold key_size, mask_flag in Hkey.
  destruct (Z.land b2 128 =? 128).
  - erewrite (bind_Ok _ _ _ key (feed rest inc s)).
    2:{ erewrite bind_Ok by (apply Read_feed; [exact Hkey|lia]).
        rewrite Hkey. reflexivity. }
    replace (_ <? 0) with true by (symmetry; apply Z.ltb_lt; exact Hneg).
    reflexivity.
  - destruct key; [|discriminate]. cbn [app]. rewrite bind_ret.
    replace (_ <? 0) with true by (symmetry; apply Z.ltb_lt; exact Hneg).
    reflexivity.
Qed.

(** A masked Text frame that announces 0xFF00000000000000 bytes. *)
Lemma top_bit_length_panics_witness :
  let s := sample_state [[129; 255; 255; 0; 0; 0; 0; 0; 0; 0; 1; 2; 3; 4; 9]] in
  readFrame s = (Panic, feed [9] [] s).
Proof.
  intros s.
  refine (top_bit_length_panics s 129 255 255 0 0 0 0 0 0 0 [1; 2; 3; 4] [9]
            [] _ _ _ _ _ _ _ _ _); by_evaluation.
Defined.

(** * Small encodings *)

(** [makeStatusCodeBytes] writes a 16-bit code on two bytes, high byte
    first: both are bytes, they are the quotient and the remainder by
    256, and read back as a 16-bit length they give the code. *)
Theorem makeStatusCodeBytes_big_endian code
    (Hcode : 0 <= code < 65536) :
  makeStatusCodeBytes code = [code / 256; code mod 256]
  /\ Forall is_byte (makeStatusCodeBytes code)
  /\ length16 (makeStatusCodeBytes code) = code.
Proof.
  assert (Hhi : Z.land (Z.shiftr code 8) 255 = code / 256).
  { rewrite Z.shiftr_div_pow2 by lia. change (2 ^ 8) with 256.
    change 255 with (Z.ones 8). rewrite Z.land_ones by lia.
    apply Z.mod_small. change (2 ^ 8) with 256.
    split; [apply Z.div_pos; lia|apply Z.div_lt_upper_bound; lia]. }
  assert (Hlo : Z.land code 255 = code mod 256).
  { change 255 with (Z.ones 8). now rewrite Z.land_ones by lia. }
  split; [|split].
  - unfold makeStatusCodeBytes. now rewrite Hhi, Hlo.
  - unfold makeStatusCodeBytes. rewrite Hhi, Hlo.
    repeat constructor; unfold is_byte.
    + apply Z.div_pos; lia.
    + apply Z.div_lt_upper_bound; lia.
    + apply Z.mod_pos_bound. lia.
    + apply Z.mod_pos_bound. lia.
  - unfold makeStatusCodeBytes. apply length16_encode, Hcode.
Qed.

Lemma makeStatusCodeBytes_big_endian_witness :
  makeStatusCodeBytes 1000 = [1000 / 256; 1000 mod 256]
  /\ Forall is_byte (makeStatusCodeBytes 1000)
  /\ length16 (makeStatusCodeBytes 1000) = 1000.
Proof. apply (makeStatusCodeBytes_big_endian 1000). lia. Defined.

Lemma log2_byte a : 0 <= a < 256 -> Z.log2 a < 8.
Proof.
  intros Ha. destruct (Z.eq_dec a 0) as [->|Hne]; [cbn; lia|].
  apply (proj1 (Z.log2_lt_pow2 a 8 ltac:(lia))).
  change (2 ^ 8) with 256. lia.
Qed.

Lemma lxor_byte a b : is_byte a -> is_byte b -> is_byte (Z.lxor a b).
Proof.
  unfold is_byte. intros Ha Hb.
  assert (Hnn : 0 <= Z.lxor a b) by (apply Z.lxor_nonneg; lia).
  split; [exact Hnn|].
  destruct (Z.eq_dec (Z.lxor a b) 0) as [->|Hne]; [lia|].
  change 256 with (2 ^ 8).
  apply (proj2 (Z.log2_lt_pow2 (Z.lxor a b) 8 ltac:(lia))).
  pose proof (Z.log2_lxor a b ltac:(lia) ltac:(lia)) as Hl.
  pose proof (log2_byte a Ha). pose proof (log2_byte b Hb). lia.
Qed.

Lemma maskData_from_bytes key (Hk : length key = 4%nat)
    (Hkb : Forall is_byte key) data :
  Forall is_byte data ->
  forall i masked,
    maskData_from i key data = Some masked -> Forall is_byte masked.
Proof.
  induction data as [|d rest IH]; intros Hd i masked; cbn [maskData_from].
  - intros [= <-]. constructor.
  - destruct (key !! (i mod 4)%nat) as [k|] eqn:Hlook; [|discriminate].
    destruct (maskData_from (S i) key rest) as [rest'|] eqn:Hrest;
      [|discriminate].
    intros [= <-]. inversion Hd as [|? ? Hd1 Hd2]; subst. constructor.
    + apply lxor_byte; [exact Hd1|].
      rewrite Forall_forall in Hkb. apply Hkb.
      apply list_elem_of_lookup. eauto.
    + eapply IH; eassumption.
Qed.

(** With a key of four bytes [maskData] never panics, keeps the length
    of the data, and keeps bytes bytes; with an empty key it panics on
    any data that is not empty. *)
Theorem maskData_keeps_bytes key data
    (Hbytes : Forall is_byte key /\ Forall is_byte data) :
  (length key = 4%nat ->
   exists masked,
     maskData key data = Some masked
     /\ length masked = length data
     /\ Forall is_byte masked)
  /\ (key = [] -> data <> [] -> maskData key data = None).
Proof.
  destruct Hbytes as [Hkb Hdb]. split.
  - intros Hk.
    destruct (maskData_from_twice key Hk data 0%nat) as (masked & Hm & _).
    exists masked. split; [exact Hm|]. split.
    + eapply maskData_from_length; eassumption.
    + eapply maskData_from_bytes; eassumption.
  - intros -> Hd. destruct data as [|d rest]; [congruence|reflexivity].
Qed.

Lemma maskData_keeps_bytes_witness :
  (length [55; 250; 33; 61] = 4%nat ->
   exists masked,
     maskData [55; 250; 33; 61] [72; 101; 108; 108; 111] = Some masked
     /\ length masked = length [72; 101; 108; 108; 111]
     /\ Forall is_byte masked)
  /\ ([55; 250; 33; 61] = [] -> [72; 101; 108; 108; 111] <> [] ->
      maskData [55; 250; 33; 61] [72; 101; 108; 108; 111] = None).
Proof.
  refine (maskData_keeps_bytes [55; 250; 33; 61] [72; 101; 108; 108; 111] _).
  split; repeat constructor; unfold is_byte; lia.
Defined.

(** * The accept value *)

Lemma be_bytes_length n z : length (Sha1.be_bytes n z) = n.
Proof.
  unfold Sha1.be_bytes.
  now rewrite List.length_map, List.length_rev, List.length_seq.
Qed.

Lemma Sha1_sum_length msg : length (Sha1.sum msg) = 20%nat.
Proof.
  unfold Sha1.sum. cbv zeta. rewrite !length_app, !be_bytes_length.
  reflexivity.
Qed.

Lemma EncodeToString_20 bs :
  length bs = 20%nat ->
  String.length (Base64.EncodeToString bs) = 28%nat
  /\ String.get 27 (Base64.EncodeToString bs) = Some "="%char.
Proof.
  intros Hlen.
  do 21 (destruct bs as [|? bs]; try discriminate).
  split; reflexivity.
Qed.

(** Whatever key the client sends, the Sec-WebSocket-Accept value is 28
    characters long and ends with one padding character: it is the
    base64 text of a digest of 20 bytes. *)
Theorem accept_key_shape key :
  String.length (accept_key key) = 28%nat
  /\ String.get 27 (accept_key key) = Some "="%char.
Proof.
  unfold accept_key. apply EncodeToString_20, Sha1_sum_length.
Qed.
